(** * go-presto: the query session of [query.go]

    A shallow embedding of the Presto client in [query.go] and [presto.go]:
    the [Query] object, its constructor [NewQuery], the row iterator [Next],
    [Close], and the private helpers [postQuery], [fetchNext], [fetchResult],
    [makeRequest] and [readResult].

    The HTTP client and the clock are the only effects of the package.  They
    are modelled by a [World]: the replies the coordinator is going to give,
    in order, and the trace of requests sent and of sleeps taken so far.  A
    computation is a function from worlds to an optional result and world;
    [None] means that the call has not returned: the scripted replies ran
    out while it was still waiting for the coordinator, or it panicked.

    What [net/url] accepts as a URL is not part of the package: it is a
    variable of the development, and every statement holds whatever it is. *)

From Stdlib Require Import ZArith List Ascii String Bool Lia.
From Stdlib Require Import Floats.PrimFloat Floats.SpecFloat Floats.FloatOps.
Import ListNotations.

Open Scope string_scope.
Open Scope list_scope.
Open Scope Z_scope.

(** ** Constants of [presto.go] and [query.go] *)

Definition version : string := "0.1.1".
Definition userHeader : string := "X-Presto-User".
Definition sourceHeader : string := "X-Presto-Source".
Definition catalogHeader : string := "X-Presto-Catalog".
Definition schemaHeader : string := "X-Presto-Schema".
Definition userAgentHeader : string := "User-Agent".
Definition userAgent : string := ("go-presto/" ++ version)%string.

(** [time.Duration] is a signed 64-bit count of nanoseconds. *)
Definition Duration := Z.
Definition Millisecond : Duration := 1000000.

Definition wrap64 (z : Z) : Z := (z + 2 ^ 63) mod 2 ^ 64 - 2 ^ 63.

Definition initialRetry : Duration := 50 * Millisecond.
Definition maxRetry : Duration := 800 * Millisecond.

(** [float64(n)] for a Go [int]: the nearest binary64 value. *)
Definition float64_of_int (n : Z) : float :=
  SF2Prim (binary_normalize 53 1024 n 0 false).

Definition ProgressUnknown : float := (-1)%float.

(** ** Data *)

(** What [encoding/json] stores in an [interface{}]. *)
#[local] Set Warnings "-register-all".
Inductive Cell : Type :=
| CNull
| CBool (b : bool)
| CNumber (f : float)
| CString (s : string)
| CArray (l : list Cell)
| CObject (l : list (string * Cell)).

(** A row is a [[]interface{}]; [None] is the nil slice. *)
Definition Row := option (list Cell).

(** Go's [error]; [None] is nil. *)
Definition error := option string.

(** Outcome of a call whose Go result is either a value or an error. *)
Inductive result (A : Type) : Type :=
| Ok (a : A)
| Err (e : string).
Arguments Ok {A} a.
Arguments Err {A} e.

Record column := { Name : string }.

Record failureInfo := { Message : string }.

Record resultError := {
  ErrorCode : Z;
  FailureInfo : failureInfo
}.

Record resultStats := {
  State : string;
  Scheduled : bool;
  CompletedSplits : Z;
  TotalSplits : Z
}.

Record queryResult := {
  ID : string;
  InfoUri : string;
  NextUri : string;
  PartialCancelUri : string;
  Data : list Row;
  Columns : list column;
  Error : resultError;
  Stats : resultStats
}.

Record Query := {
  host : string;
  user : string;
  source : string;
  catalog : string;
  schema : string;
  query : string;
  closed : bool;
  id : string;
  columns : option (list string);
  bufferedRows : list Row;
  state : string;
  progress : float;
  nextUri : string
}.

Definition set_closed (q : Query) (b : bool) : Query :=
  {| host := host q; user := user q; source := source q; catalog := catalog q;
     schema := schema q; query := query q; closed := b; id := id q;
     columns := columns q; bufferedRows := bufferedRows q; state := state q;
     progress := progress q; nextUri := nextUri q |}.

Definition set_id (q : Query) (s : string) : Query :=
  {| host := host q; user := user q; source := source q; catalog := catalog q;
     schema := schema q; query := query q; closed := closed q; id := s;
     columns := columns q; bufferedRows := bufferedRows q; state := state q;
     progress := progress q; nextUri := nextUri q |}.

Definition set_columns (q : Query) (c : option (list string)) : Query :=
  {| host := host q; user := user q; source := source q; catalog := catalog q;
     schema := schema q; query := query q; closed := closed q; id := id q;
     columns := c; bufferedRows := bufferedRows q; state := state q;
     progress := progress q; nextUri := nextUri q |}.

Definition set_bufferedRows (q : Query) (rows : list Row) : Query :=
  {| host := host q; user := user q; source := source q; catalog := catalog q;
     schema := schema q; query := query q; closed := closed q; id := id q;
     columns := columns q; bufferedRows := rows; state := state q;
     progress := progress q; nextUri := nextUri q |}.

Definition set_state (q : Query) (s : string) : Query :=
  {| host := host q; user := user q; source := source q; catalog := catalog q;
     schema := schema q; query := query q; closed := closed q; id := id q;
     columns := columns q; bufferedRows := bufferedRows q; state := s;
     progress := progress q; nextUri := nextUri q |}.

Definition set_progress (q : Query) (p : float) : Query :=
  {| host := host q; user := user q; source := source q; catalog := catalog q;
     schema := schema q; query := query q; closed := closed q; id := id q;
     columns := columns q; bufferedRows := bufferedRows q; state := state q;
     progress := p; nextUri := nextUri q |}.

Definition set_nextUri (q : Query) (u : string) : Query :=
  {| host := host q; user := user q; source := source q; catalog := catalog q;
     schema := schema q; query := query q; closed := closed q; id := id q;
     columns := columns q; bufferedRows := bufferedRows q; state := state q;
     progress := progress q; nextUri := u |}.

(** ** The transport and the clock *)

Inductive Method : Type := GET | POST | DELETE.

(** [http.Header]: a map from a key to the values added under it, in the
    order they were added; a key never added has no values.  (The keys of
    [presto.go] are in canonical form as they stand.) *)
Definition Header : Type := string -> list string.

Definition Header_empty : Header := fun _ => [].

(** A [*http.Request] that is not nil.  [req_body] is what its body reader
    still has to give. *)
Record Request := {
  req_method : Method;
  req_url : string;
  req_body : string;
  req_header : Header
}.

(** What reading and decoding a response body gives: [ioutil.ReadAll] fails,
    [json.Unmarshal] fails, or the body decodes to an envelope. *)
Inductive Body : Type :=
| Unreadable (e : string)
| Undecodable (e : string)
| Envelope (r : queryResult).

Record Response := {
  StatusCode : Z;
  Status : string;
  RespBody : Body
}.

(** One answer of [http.DefaultClient.Do]. *)
Inductive Reply : Type :=
| DoFails (e : string)
| DoReturns (resp : Response).

Inductive Event : Type :=
| Sent (req : Request)
| Slept (d : Duration).

Record World := {
  pending : list Reply;
  trace : list Event
}.

Definition IO (A : Type) : Type := World -> option (A * World).

Definition ret {A : Type} (a : A) : IO A := fun w => Some (a, w).

Definition bind {A B : Type} (m : IO A) (k : A -> IO B) : IO B :=
  fun w => match m w with
           | Some (a, w') => k a w'
           | None => None
           end.

Notation "x <- m ;; k" := (bind m (fun x => k))
  (at level 100, m at next level, right associativity).

(** A run-time panic: the call does not return. *)
Definition panic {A : Type} : IO A := fun _ => None.

(** [http.DefaultClient.Do(req)]: the request goes out and the next scripted
    reply comes back. *)
Definition client_Do (req : Request) : IO Reply :=
  fun w => match pending w with
           | [] => None
           | r :: rest => Some (r, {| pending := rest; trace := trace w ++ [Sent req] |})
           end.

(** [time.Sleep(d)]. *)
Definition time_Sleep (d : Duration) : IO unit :=
  fun w => Some (tt, {| pending := pending w; trace := trace w ++ [Slept d] |}).

(** The request [http.NewRequest] builds when it builds one. *)
Definition new_request (m : Method) (url body : string) : Request :=
  {| req_method := m; req_url := url; req_body := body;
     req_header := Header_empty |}.

(** [h.Add(k, v)]: [v] joins the values of [k]. *)
Definition Header_Add (h : Header) (k v : string) : Header :=
  fun k' => if (k' =? k)%string then h k' ++ [v] else h k'.

(** [req.Header.Add(k, v)]. *)
Definition add_header (req : Request) (k v : string) : Request :=
  {| req_method := req_method req; req_url := req_url req;
     req_body := req_body req;
     req_header := Header_Add (req_header req) k v |}.

(** The request once [Do] has sent it: the body reader has been read to its
    end and is not rewound, so a second [Do] of the same request finds no
    body. *)
Definition drained (req : Request) : Request :=
  {| req_method := req_method req; req_url := req_url req;
     req_body := ""; req_header := req_header req |}.

(** One possible behaviour of [net/url], for the instances at the end: it
    rejects a string that holds a percent sign, a space or a control
    character, or that starts with a colon, and accepts every other. *)
Definition sample_parses (u : string) : bool :=
  match u with
  | String ":"%char _ => false
  | _ =>
      forallb (fun c => let n := Ascii.nat_of_ascii c in
                        (32 <? n)%nat && negb (n =? 37)%nat && negb (n =? 127)%nat)
        (list_ascii_of_string u)
  end.

Section Presto.

(** What [net/url] makes of a string: [true] when it parses as a URL. *)
Variable url_parses : string -> bool.

(** [http.NewRequest(method, url, body)]: the request, or nil ([None]) when
    the url does not parse; the source discards the error. *)
Definition NewRequest (m : Method) (url body : string) : option Request :=
  if url_parses url then Some (new_request m url body) else None.

(** ** The methods of [Query] *)

(** The statement [retry *= 2; if retry > maxRetry { retry = maxRetry }]. *)
Definition nextRetry (retry : Duration) : Duration :=
  let doubled := wrap64 (retry * 2) in
  if doubled >? maxRetry then maxRetry else doubled.

(** The [for] loop of [makeRequest]; each turn consumes one reply, and the
    one request is sent again as the turn before left it. *)
Fixpoint makeRequest_loop (fuel : nat) (req : Request) (retry : Duration)
  : IO (result Response) :=
  match fuel with
  | O => fun _ => None
  | S fuel' =>
      r <- client_Do req ;;
      match r with
      | DoFails e => ret (Err e)
      | DoReturns resp =>
          if StatusCode resp =? 200 then ret (Ok resp)
          else if negb (StatusCode resp =? 503) then
            ret (Err ("unexpected http status: " ++ Status resp)%string)
          else
            _ <- time_Sleep retry ;;
            makeRequest_loop fuel' (drained req) (nextRetry retry)
      end
  end.

(** The five [req.Header.Add] calls at the head of [makeRequest]. *)
Definition with_headers (q : Query) (req : Request) : Request :=
  let req := add_header req userAgentHeader userAgent in
  let req := add_header req userHeader (user q) in
  let req := add_header req catalogHeader (catalog q) in
  let req := add_header req schemaHeader (schema q) in
  add_header req sourceHeader (source q).

(** On a nil request the first [req.Header.Add] dereferences nil. *)
Definition makeRequest (q : Query) (req : option Request)
  : IO (result Response) :=
  match req with
  | None => panic
  | Some req =>
      let req := with_headers q req in
      fun w => makeRequest_loop (S (List.length (pending w))) req initialRetry w
  end.

Definition readResult (resp : Response) : result queryResult :=
  match RespBody resp with
  | Unreadable e => Err e
  | Undecodable e =>
      Err ("error decoding json response from presto: " ++ e)%string
  | Envelope r => Ok r
  end.

(** On its failure paths [fetchResult] hands back the envelope next to the
    error; both callers return on the error without looking at it. *)
Definition fetchResult (q : Query) (req : option Request)
  : IO (result queryResult) :=
  r <- makeRequest q req ;;
  match r with
  | Err e => ret (Err e)
  | Ok resp =>
      match readResult resp with
      | Err e => ret (Err e)
      | Ok res =>
          if negb (Message (FailureInfo (Error res)) =? "")%string then
            ret (Err ("query failed: " ++ Message (FailureInfo (Error res)))%string)
          else ret (Ok res)
      end
  end.

Definition postQuery (q : Query) : IO (error * Query) :=
  let queryUrl := (host q ++ "/v1/statement")%string in
  let req := NewRequest POST queryUrl (query q) in
  r <- fetchResult q req ;;
  match r with
  | Err e => ret (Some e, set_closed q true)
  | Ok res =>
      let q := set_id q (ID res) in
      let q := set_nextUri q (NextUri res) in
      ret (None, q)
  end.

Definition is_nil {A : Type} (s : option (list A)) : bool :=
  match s with None => true | Some _ => false end.

(** The assignments of [fetchNext] once the envelope is in hand. *)
Definition fetchNext_store (q : Query) (res : queryResult) : Query :=
  let q := set_bufferedRows q (Data res) in
  let q := set_state q (State (Stats res)) in
  let q :=
    if is_nil (columns q) && (0 <? List.length (Columns res))%nat then
      set_columns q (Some (map Name (Columns res)))
    else q in
  let q :=
    if Scheduled (Stats res) then
      set_progress q (float64_of_int (CompletedSplits (Stats res))
                      / float64_of_int (TotalSplits (Stats res)))%float
    else set_progress q ProgressUnknown in
  let q := set_nextUri q (NextUri res) in
  if (NextUri res =? "")%string then set_closed q true else q.

Definition fetchNext (q : Query) : IO (error * Query) :=
  let req := NewRequest GET (nextUri q) "" in
  r <- fetchResult q req ;;
  match r with
  | Err e => ret (Some e, set_closed q true)
  | Ok res => ret (None, fetchNext_store q res)
  end.

Definition Query_Columns (q : Query) : option (list string) := columns q.
Definition Query_Progress (q : Query) : float := progress q.
Definition Query_Id (q : Query) : string := id q.

Definition Close (q : Query) : IO (error * Query) :=
  if closed q then ret (None, q)
  else
    let q := set_closed q true in
    let req := NewRequest DELETE (nextUri q) "" in
    r <- makeRequest q req ;;
    match r with
    | Err e => ret (Some e, q)
    | Ok resp =>
        if negb (StatusCode resp =? 204) then
          ret (Some ("unexpected http status: " ++ Status resp)%string, q)
        else ret (None, q)
    end.

(** The [for] loop of [Next].  The error is the one of the early
    [return nil, err]; [None] means the loop condition became false. *)
Fixpoint Next_loop (fuel : nat) (retry : Duration) (q : Query)
  : IO (error * Query) :=
  match fuel with
  | O => fun _ => None
  | S fuel' =>
      if negb (closed q) && (List.length (bufferedRows q) =? 0)%nat then
        r <- fetchNext q ;;
        match r with
        | (Some e, q) => ret (Some e, q)
        | (None, q) =>
            if (List.length (bufferedRows q) =? 0)%nat then
              _ <- time_Sleep retry ;;
              Next_loop fuel' (nextRetry retry) q
            else Next_loop fuel' retry q
        end
      else ret (None, q)
  end.

(** Every turn of the loop that polls consumes a reply, and one more turn
    sees the condition false. *)
Definition Next_fuel (w : World) : nat := S (List.length (pending w)).

Definition Next (q : Query) : IO ((Row * error) * Query) :=
  fun w =>
    (r <- Next_loop (Next_fuel w) initialRetry q ;;
     match r with
     | (Some e, q) => ret ((None, Some e), q)
     | (None, q) =>
         match bufferedRows q with
         | row :: rest => ret ((row, None), set_bufferedRows q rest)
         | [] => ret ((None, None), q)
         end
     end) w.

(** The composite literal [&Query{...}] of [NewQuery]; the fields it does
    not name hold their zero values. *)
Definition Query_literal (host user source catalog schema query : string)
  : Query :=
  {| host := host; user := user; source := source; catalog := catalog;
     schema := schema; query := query; closed := false; id := "";
     columns := None; bufferedRows := []; state := "";
     progress := 0%float; nextUri := "" |}.

(** The body of [NewQuery], with the object it built next to the error. *)
Definition NewQuery_object (host user source catalog schema query : string)
  : IO (error * Query) :=
  let user := if (user =? "")%string then "anonymous" else user in
  let source := if (source =? "")%string then userAgent else source in
  let catalog := if (catalog =? "")%string then "default" else catalog in
  let schema := if (schema =? "")%string then "default" else schema in
  let q := Query_literal host user source catalog schema query in
  r <- postQuery q ;;
  match r with
  | (Some e, q) => ret (Some e, q)
  | (None, q) => fetchNext q
  end.

(** [NewQuery] as its caller sees it: the session, or the error alone. *)
Definition NewQuery (host user source catalog schema query : string)
  : IO (result Query) :=
  r <- NewQuery_object host user source catalog schema query ;;
  match r with
  | (Some e, _) => ret (Err e)
  | (None, q) => ret (Ok q)
  end.

(** [n] successive calls of [Next], as a caller's loop makes them, with the
    pair each call returned. *)
Fixpoint Next_n (n : nat) (q : Query) : IO (list (Row * error) * Query) :=
  match n with
  | O => ret ([], q)
  | S n' =>
      r <- Next q ;;
      rs <- Next_n n' (snd r) ;;
      ret (fst r :: fst rs, snd rs)
  end.

(** ** Fixtures *)

Definition ok_reply (res : queryResult) : Reply :=
  DoReturns {| StatusCode := 200; Status := "200 OK"; RespBody := Envelope res |}.

Definition status_reply (code : Z) (status : string) : Reply :=
  DoReturns {| StatusCode := code; Status := status;
               RespBody := Undecodable "unexpected end of JSON input" |}.

(** A session as a caller may hold it. *)
Definition session_at (uri : string) (rows : list Row) (shut : bool) : Query :=
  {| host := "http://coordinator:8080"; user := "anonymous";
     source := userAgent; catalog := "default"; schema := "default";
     query := "select 1"; closed := shut; id := "q1";
     columns := None; bufferedRows := rows; state := "";
     progress := 0%float; nextUri := uri |}.

Definition envelope (next : string) (rows : list Row) (msg : string)
  (sched : bool) (done total : Z) : queryResult :=
  {| ID := "q1"; InfoUri := ""; NextUri := next; PartialCancelUri := "";
     Data := rows; Columns := [];
     Error := {| ErrorCode := 0; FailureInfo := {| Message := msg |} |};
     Stats := {| State := "RUNNING"; Scheduled := sched;
                 CompletedSplits := done; TotalSplits := total |} |}.

Definition world_of (replies : list Reply) : World :=
  {| pending := replies; trace := [] |}.

(** ** The shape of a transport exchange *)

(** The [i]-th delay of a backoff run. *)
Definition delay (i : nat) : Duration :=
  Z.min (initialRetry * 2 ^ Z.of_nat i) maxRetry.

(** A reply that makes [makeRequest] sleep and ask again. *)
Definition not_ready (r : Reply) : bool :=
  match r with
  | DoFails _ => false
  | DoReturns resp => StatusCode resp =? 503
  end.

(** What [makeRequest] returns on a reply that ends its loop. *)
Definition settled (r : Reply) : result Response :=
  match r with
  | DoFails e => Err e
  | DoReturns resp =>
      if StatusCode resp =? 200 then Ok resp
      else Err ("unexpected http status: " ++ Status resp)%string
  end.

(** What [fetchResult] returns on such a reply. *)
Definition digest (r : Reply) : result queryResult :=
  match settled r with
  | Err e => Err e
  | Ok resp =>
      match readResult resp with
      | Err e => Err e
      | Ok res =>
          if negb (Message (FailureInfo (Error res)) =? "")%string then
            Err ("query failed: " ++ Message (FailureInfo (Error res)))%string
          else Ok res
      end
  end.

(** The events of a transport call for [req] that sees [k] not-ready
    replies, the first sleep being [delay i], and then a reply that ends its
    loop: the request goes out, then after each sleep what [Do] left of it. *)
Fixpoint call_log (req : Request) (i k : nat) : list Event :=
  match k with
  | O => [Sent req]
  | S k' => Sent req :: Slept (delay i) :: call_log (drained req) (S i) k'
  end.

(** The world after such a call. *)
Definition after_call (req : Request) (w : World) (k : nat)
  (rest : list Reply) : World :=
  {| pending := rest; trace := trace w ++ call_log req 0 k |}.

Definition poll_request (q : Query) : Request :=
  with_headers q (new_request GET (nextUri q) "").

Definition submit_request (q : Query) : Request :=
  with_headers q (new_request POST (host q ++ "/v1/statement")%string (query q)).

Definition cancel_request (q : Query) : Request :=
  with_headers q (new_request DELETE (nextUri q) "").

Definition sleeps_of (tr : list Event) : list Duration :=
  flat_map (fun e => match e with Slept d => [d] | Sent _ => [] end) tr.

Definition all_not_ready (waits : list Reply) : Prop :=
  Forall (fun r => not_ready r = true) waits.

(** ** The vocabulary of the statements *)

(** A reply that carries an envelope under status 200. *)
Definition carries (r : Reply) (res : queryResult) : Prop :=
  exists resp, r = DoReturns resp /\ StatusCode resp = 200 /\
               RespBody resp = Envelope res.

(** An empty continuation handle only on a closed session. *)
Definition handle_inv (q : Query) : Prop :=
  nextUri q = "" -> closed q = true.

(** The sessions a caller can hold: the one [NewQuery] returned, and what
    [Next] and [Close] make of it, whatever the coordinator answers. *)
Inductive reachable : Query -> Prop :=
| reach_NewQuery (host user source catalog schema query : string)
    (w w' : World) (q : Query) :
    NewQuery host user source catalog schema query w = Some (Ok q, w') ->
    reachable q
| reach_Next (q q' : Query) (w w' : World) (r : Row * error) :
    reachable q ->
    Next q w = Some ((r, q'), w') ->
    reachable q'
| reach_Close (q q' : Query) (w w' : World) (e : error) :
    reachable q ->
    Close q w = Some ((e, q'), w') ->
    reachable q'.

(** The tail of [Next], after its loop. *)
Definition pop (q : Query) : (Row * error) * Query :=
  match bufferedRows q with
  | row :: rest => ((row, None), set_bufferedRows q rest)
  | [] => ((None, None), q)
  end.

(** The object [NewQuery] builds before it submits. *)
Definition NewQuery_fresh (host user source catalog schema query : string)
  : Query :=
  Query_literal host
    (if (user =? "")%string then "anonymous" else user)
    (if (source =? "")%string then userAgent else source)
    (if (catalog =? "")%string then "default" else catalog)
    (if (schema =? "")%string then "default" else schema)
    query.

(** The session [postQuery] leaves when the submission succeeded. *)
Definition submitted (q : Query) (sub : queryResult) : Query :=
  set_nextUri (set_id q (ID sub)) (NextUri sub).

(** The replies on which a fetch fails without an envelope, each with the
    error the code makes of it: the client fails, the status is neither 200
    nor 503, the body cannot be read, the body is not the JSON expected. *)
Inductive fetch_fails : Reply -> string -> Prop :=
| fails_client (e : string) :
    fetch_fails (DoFails e) e
| fails_status (resp : Response) :
    StatusCode resp <> 200 -> StatusCode resp <> 503 ->
    fetch_fails (DoReturns resp)
      ("unexpected http status: " ++ Status resp)%string
| fails_read (resp : Response) (e : string) :
    StatusCode resp = 200 -> RespBody resp = Unreadable e ->
    fetch_fails (DoReturns resp) e
| fails_decode (resp : Response) (e : string) :
    StatusCode resp = 200 -> RespBody resp = Undecodable e ->
    fetch_fails (DoReturns resp)
      ("error decoding json response from presto: " ++ e)%string.

(** An empty poll of [Next]: the not-ready replies its transport call sees,
    then the envelope, which has no rows and keeps the session open, on a
    handle that parses. *)
Definition EmptyPoll : Type := (list Reply * queryResult)%type.

Definition empty_poll (g : EmptyPoll) : Prop :=
  all_not_ready (fst g) /\
  Message (FailureInfo (Error (snd g))) = "" /\
  Data (snd g) = [] /\
  NextUri (snd g) <> "" /\
  url_parses (NextUri (snd g)) = true.

(** A reply that ends a run of empty polls: it is not a not-ready reply, and
    it is a failure, an envelope with rows, or an envelope that closes the
    session. *)
Definition ends_run (r : Reply) : Prop :=
  not_ready r = false /\
  match digest r with
  | Err _ => True
  | Ok res => Data res <> [] \/ NextUri res = ""
  end.

(** The sleep [Next] still takes when the [i]-th poll of its loop is the
    last and brought no rows. *)
Definition closing_sleep (i : nat) (r : Reply) : list Duration :=
  match digest r with
  | Err _ => []
  | Ok res => match Data res with [] => [delay i] | _ :: _ => [] end
  end.

Definition poll_replies (g : EmptyPoll) : list Reply :=
  fst g ++ [ok_reply (snd g)].

(** The sleeps of a run of empty polls, the first of them being the [i]-th
    of its call of [Next]: each poll's transport call runs its own backoff
    from the start, then the loop of [Next] sleeps [delay i]. *)
Fixpoint backoff_run (i : nat) (polls : list EmptyPoll) : list Duration :=
  match polls with
  | [] => []
  | g :: polls' =>
      map delay (seq 0 (List.length (fst g)))
        ++ delay i :: backoff_run (S i) polls'
  end.

Definition successful (e : queryResult) : Prop :=
  Message (FailureInfo (Error e)) = "".

(** A run of poll responses in which only the last may carry the empty
    handle, so that each of them is polled. *)
Fixpoint open_until_last (envs : list queryResult) : bool :=
  match envs with
  | [] => true
  | e :: envs' =>
      match envs' with
      | [] => true
      | _ :: _ => negb (NextUri e =? "")%string && open_until_last envs'
      end
  end.

(** The handles of such a run that are polled, all but the last, parse. *)
Fixpoint handles_parse (envs : list queryResult) : bool :=
  match envs with
  | [] => true
  | e :: envs' =>
      match envs' with
      | [] => true
      | _ :: _ => url_parses (NextUri e) && handles_parse envs'
      end
  end.

(** Such a run whose last response does carry the empty handle. *)
Fixpoint ends_session (envs : list queryResult) : bool :=
  match envs with
  | [] => false
  | e :: envs' =>
      match envs' with
      | [] => (NextUri e =? "")%string
      | _ :: _ => negb (NextUri e =? "")%string && ends_session envs'
      end
  end.

(** A session and the responses still to come: on a closed session nothing
    is to come, and the handles to be polled parse. *)
Definition fed (q : Query) (w : World) (envs : list queryResult) : Prop :=
  pending w = map ok_reply envs /\
  Forall successful envs /\
  (closed q = true -> envs = []) /\
  open_until_last envs = true /\
  (envs <> [] -> url_parses (nextUri q) = true) /\
  handles_parse envs = true.

(** The session is closed or the responses to come close it. *)
Definition will_end (q : Query) (envs : list queryResult) : Prop :=
  closed q = true \/ ends_session envs = true.

(** The rows not yet handed out: those buffered, then those to come. *)
Definition outstanding (q : Query) (envs : list queryResult) : list Row :=
  bufferedRows q ++ List.concat (map Data envs).

(** ** The caller of [query_test.go] and further vocabulary *)

(** The [for] loop of [TestQuery]: it calls [Next] until the row is nil,
    appending every other row; [require.NoError] ends the test on an
    error.  [rows] is the slice collected so far. *)
Fixpoint TestQuery_loop (fuel : nat) (q : Query) (rows : list Row)
  : IO (result (list Row) * Query) :=
  match fuel with
  | O => fun _ => None
  | S fuel' =>
      r <- Next q ;;
      match r with
      | ((_, Some e), q) => ret (Err e, q)
      | ((None, None), q) => ret (Ok rows, q)
      | ((Some row, None), q) => TestQuery_loop fuel' q (rows ++ [Some row])
      end
  end.

(** An envelope with column metadata. *)
Definition columns_envelope (next : string) (rows : list Row)
  (names : list string) : queryResult :=
  {| ID := "q1"; InfoUri := ""; NextUri := next; PartialCancelUri := "";
     Data := rows; Columns := map (fun n => {| Name := n |}) names;
     Error := {| ErrorCode := 0; FailureInfo := {| Message := "" |} |};
     Stats := {| State := "RUNNING"; Scheduled := false;
                 CompletedSplits := 0; TotalSplits := 0 |} |}.

(** The headers [makeRequest] puts on every request of a session. *)
Definition session_headers (q : Query) : Header :=
  Header_Add
    (Header_Add
       (Header_Add
          (Header_Add (Header_Add Header_empty userAgentHeader userAgent)
             userHeader (user q))
          catalogHeader (catalog q))
       schemaHeader (schema q))
    sourceHeader (source q).

(** The fields no method but the constructor writes. *)
Definition same_session (q q' : Query) : Prop :=
  host q' = host q /\ user q' = user q /\ source q' = source q /\
  catalog q' = catalog q /\ schema q' = schema q /\ query q' = query q /\
  id q' = id q.

Definition in_backoff_range (d : Duration) : Prop :=
  initialRetry <= d <= maxRetry.

(** An event of a transport call for [req]: the request itself, as built or
    as a first [Do] left it, or a sleep within the backoff range. *)
Definition call_event (req : Request) (ev : Event) : Prop :=
  match ev with
  | Sent r => r = req \/ r = drained req
  | Slept d => in_backoff_range d
  end.

(** An event of a call of [Next] on session [q]: a GET without a body under
    the session's headers, or a sleep within the backoff range. *)
Definition poll_event (q : Query) (ev : Event) : Prop :=
  match ev with
  | Sent r => req_method r = GET /\ req_body r = "" /\
              req_header r = session_headers q
  | Slept d => in_backoff_range d
  end.

Definition requests_of (tr : list Event) : list Request :=
  flat_map (fun e => match e with Sent r => [r] | Slept _ => [] end) tr.

(** A successful envelope without rows that keeps the session open, on a
    handle that parses. *)
Definition idle_envelope (e : queryResult) : Prop :=
  successful e /\ Data e = [] /\ NextUri e <> "" /\
  url_parses (NextUri e) = true.

(** The error [Close] makes of the reply that ends its transport call. *)
Definition Close_error (r : Reply) : string :=
  match r with
  | DoFails e => e
  | DoReturns resp => ("unexpected http status: " ++ Status resp)%string
  end.

(** ** Backoff arithmetic *)

Lemma wrap64_small (z : Z) : 0 <= z < 2 ^ 63 -> wrap64 z = z.
Proof.
  intros Hz. unfold wrap64.
  rewrite Z.mod_small; lia.
Qed.

Lemma delay_0 : delay 0 = initialRetry.
Proof. reflexivity. Qed.

Lemma delay_bounds (i : nat) : initialRetry <= delay i <= maxRetry.
Proof.
  unfold delay, initialRetry, maxRetry, Millisecond.
  assert (1 <= 2 ^ Z.of_nat i) by (apply (Z.pow_le_mono_r 2 0); lia).
  lia.
Qed.

Lemma nextRetry_delay (i : nat) : nextRetry (delay i) = delay (S i).
Proof.
  unfold nextRetry.
  pose proof (delay_bounds i) as Hb.
  rewrite wrap64_small
    by (unfold initialRetry, maxRetry, Millisecond in Hb; lia).
  unfold delay in *. rewrite Nat2Z.inj_succ, Z.pow_succ_r by lia.
  unfold initialRetry, maxRetry, Millisecond in *.
  set (p := 2 ^ Z.of_nat i) in *.
  rewrite Z.gtb_ltb.
  match goal with
  | |- context [?a <? ?b] => destruct (Z.ltb_spec a b)
  end; lia.
Qed.

Lemma delay_doubles (i : nat) : delay (S i) = Z.min (2 * delay i) maxRetry.
Proof.
  unfold delay. rewrite Nat2Z.inj_succ, Z.pow_succ_r by lia.
  unfold initialRetry, maxRetry, Millisecond. lia.
Qed.

(** ** One transport call *)

Lemma not_ready_settles (resp : Response) :
  not_ready (DoReturns resp) = true -> StatusCode resp = 503.
Proof. simpl. intros H. now apply Z.eqb_eq in H. Qed.

Lemma drained_drained (req : Request) : drained (drained req) = drained req.
Proof. reflexivity. Qed.

Lemma makeRequest_loop_settles :
  forall (waits : list Reply) (req : Request) (fuel i : nat) (r : Reply)
         (rest : list Reply) (tr : list Event),
    all_not_ready waits ->
    not_ready r = false ->
    (List.length waits < fuel)%nat ->
    makeRequest_loop fuel req (delay i)
      {| pending := waits ++ r :: rest; trace := tr |}
    = Some (settled r,
            {| pending := rest;
               trace := tr ++ call_log req i (List.length waits) |}).
Proof.
  induction waits as [|x waits IH]; intros req fuel i r rest tr Hw Hr Hf;
    (destruct fuel as [|fuel]; [simpl in Hf; lia|]).
  - simpl. unfold bind, client_Do. simpl.
    destruct r as [e|resp]; simpl; [reflexivity|].
    simpl in Hr.
    destruct (StatusCode resp =? 200); [reflexivity|].
    rewrite Hr. reflexivity.
  - inversion Hw as [|? ? Hx Hw']; subst.
    destruct x as [e|resp]; [discriminate Hx|].
    pose proof (not_ready_settles _ Hx) as Hc.
    cbn [makeRequest_loop app]. unfold bind at 1, client_Do at 1.
    cbn [pending trace]. rewrite Hc. cbn [Z.eqb Pos.eqb negb].
    unfold bind at 1, time_Sleep at 1. cbn [pending trace].
    rewrite nextRetry_delay.
    rewrite IH by (simpl in Hf; auto; lia).
    cbn [List.length call_log].
    rewrite <- !app_assoc. reflexivity.
Qed.

Lemma makeRequest_settles (q : Query) (req : Request) (w : World)
      (waits : list Reply) (r : Reply) (rest : list Reply) :
  all_not_ready waits ->
  not_ready r = false ->
  pending w = waits ++ r :: rest ->
  makeRequest q (Some req) w
  = Some (settled r, after_call (with_headers q req) w (List.length waits) rest).
Proof.
  intros Hw Hr Hp. destruct w as [p tr]. simpl in Hp. subst p.
  unfold makeRequest, after_call. cbn [pending trace].
  rewrite <- delay_0.
  apply makeRequest_loop_settles; auto.
  rewrite length_app. simpl. lia.
Qed.

Lemma fetchResult_settles (q : Query) (req : Request) (w : World)
      (waits : list Reply) (r : Reply) (rest : list Reply) :
  all_not_ready waits ->
  not_ready r = false ->
  pending w = waits ++ r :: rest ->
  fetchResult q (Some req) w
  = Some (digest r, after_call (with_headers q req) w (List.length waits) rest).
Proof.
  intros Hw Hr Hp. unfold fetchResult, bind.
  rewrite (makeRequest_settles q req w waits r rest Hw Hr Hp).
  unfold digest. destruct (settled r) as [resp|e]; [|reflexivity].
  destruct (readResult resp) as [res|e]; [|reflexivity].
  destruct (negb _); reflexivity.
Qed.

Lemma fetchNext_settles (q : Query) (w : World)
      (waits : list Reply) (r : Reply) (rest : list Reply) :
  url_parses (nextUri q) = true ->
  all_not_ready waits ->
  not_ready r = false ->
  pending w = waits ++ r :: rest ->
  fetchNext q w
  = Some (match digest r with
          | Err e => (Some e, set_closed q true)
          | Ok res => (None, fetchNext_store q res)
          end,
          after_call (poll_request q) w (List.length waits) rest).
Proof.
  intros Hu Hw Hr Hp. unfold fetchNext, bind, NewRequest. rewrite Hu.
  rewrite (fetchResult_settles q _ w waits r rest Hw Hr Hp).
  destruct (digest r); reflexivity.
Qed.

Lemma postQuery_settles (q : Query) (w : World)
      (waits : list Reply) (r : Reply) (rest : list Reply) :
  url_parses (host q ++ "/v1/statement") = true ->
  all_not_ready waits ->
  not_ready r = false ->
  pending w = waits ++ r :: rest ->
  postQuery q w
  = Some (match digest r with
          | Err e => (Some e, set_closed q true)
          | Ok res => (None, set_nextUri (set_id q (ID res)) (NextUri res))
          end,
          after_call (submit_request q) w (List.length waits) rest).
Proof.
  intros Hu Hw Hr Hp. unfold postQuery, bind, NewRequest. rewrite Hu.
  rewrite (fetchResult_settles q _ w waits r rest Hw Hr Hp).
  destruct (digest r); reflexivity.
Qed.

(** A nil request: the call panics, before anything is sent and before the
    session is touched. *)
Lemma fetchNext_panics (q : Query) (w : World) :
  url_parses (nextUri q) = false -> fetchNext q w = None.
Proof.
  intros Hu. unfold fetchNext, bind, fetchResult, bind, NewRequest.
  rewrite Hu. reflexivity.
Qed.

Lemma fetchNext_returns_parses (q q' : Query) (w w' : World) (e : error) :
  fetchNext q w = Some ((e, q'), w') -> url_parses (nextUri q) = true.
Proof.
  intros H. destruct (url_parses (nextUri q)) eqn:Hu; [reflexivity|].
  rewrite fetchNext_panics in H by exact Hu. discriminate H.
Qed.

Lemma carries_ok_reply (res : queryResult) : carries (ok_reply res) res.
Proof. exists {| StatusCode := 200; Status := "200 OK"; RespBody := Envelope res |}. auto. Qed.

Lemma carries_ready (r : Reply) (res : queryResult) :
  carries r res -> not_ready r = false.
Proof. intros (resp & -> & Hc & _). simpl. rewrite Hc. reflexivity. Qed.

Lemma digest_success (r : Reply) (res : queryResult) :
  carries r res ->
  Message (FailureInfo (Error res)) = "" ->
  digest r = Ok res.
Proof.
  intros (resp & -> & Hc & Hb) Hm. unfold digest, settled.
  rewrite Hc. cbn [Z.eqb Pos.eqb]. unfold readResult.
  rewrite Hb, Hm. reflexivity.
Qed.

Lemma digest_failure (r : Reply) (res : queryResult) :
  carries r res ->
  Message (FailureInfo (Error res)) <> "" ->
  digest r = Err ("query failed: " ++ Message (FailureInfo (Error res)))%string.
Proof.
  intros (resp & -> & Hc & Hb) Hm. unfold digest, settled.
  rewrite Hc. cbn [Z.eqb Pos.eqb]. unfold readResult.
  rewrite Hb. apply String.eqb_neq in Hm. rewrite Hm. reflexivity.
Qed.

(** ** Close *)

Lemma makeRequest_loop_ok_200 :
  forall (fuel : nat) (req : Request) (retry : Duration) (w w' : World)
         (resp : Response),
    makeRequest_loop fuel req retry w = Some (Ok resp, w') ->
    StatusCode resp = 200.
Proof.
  induction fuel as [|fuel IH]; intros req retry w w' resp H;
    [discriminate H|].
  simpl in H. unfold bind, client_Do in H.
  destruct (pending w) as [|r rest]; [discriminate H|].
  destruct r as [e|resp0]; [discriminate H|].
  destruct (StatusCode resp0 =? 200) eqn:E200.
  - inversion H; subst. now apply Z.eqb_eq.
  - destruct (negb (StatusCode resp0 =? 503)); [discriminate H|].
    unfold time_Sleep in H. eapply IH; eassumption.
Qed.

Lemma makeRequest_ok_200 (q : Query) (req : option Request) (w w' : World)
      (resp : Response) :
  makeRequest q req w = Some (Ok resp, w') -> StatusCode resp = 200.
Proof.
  destruct req as [req|]; [|discriminate]. unfold makeRequest.
  apply makeRequest_loop_ok_200.
Qed.

Lemma Close_open_never_succeeds (q q' : Query) (w w' : World) (e : error) :
  closed q = false ->
  Close q w = Some ((e, q'), w') ->
  e <> None.
Proof.
  intros Hc H. unfold Close in H. rewrite Hc in H. unfold bind in H.
  destruct (makeRequest _ _ w) as [[[resp|msg] w1]|] eqn:Hm; [| |discriminate H].
  - apply makeRequest_ok_200 in Hm. rewrite Hm in H.
    inversion H. discriminate.
  - inversion H. discriminate.
Qed.

Lemma Close_open_settles (q : Query) (w : World)
      (waits rest : list Reply) (r : Reply) :
  closed q = false ->
  url_parses (nextUri q) = true ->
  all_not_ready waits ->
  not_ready r = false ->
  pending w = waits ++ r :: rest ->
  Close q w
  = Some ((Some (Close_error r), set_closed q true),
          after_call (cancel_request q) w (List.length waits) rest).
Proof.
  intros Hc Hu Hw Hr Hp.
  unfold Close. rewrite Hc. unfold bind, NewRequest.
  cbn [nextUri set_closed]. rewrite Hu.
  rewrite (makeRequest_settles (set_closed q true) _ w waits r rest Hw Hr Hp).
  destruct r as [e|resp]; [reflexivity|].
  cbn [settled Close_error].
  destruct (StatusCode resp =? 200) eqn:E; [|reflexivity].
  apply Z.eqb_eq in E. rewrite E. reflexivity.
Qed.

(** C1 (evaluation at the failing input): the coordinator acknowledges the
    cancellation of an open session, whose handle parses, with status 204,
    and [Close] returns the unexpected-status error, because [makeRequest]
    hands back a response only under status 200. *)
Theorem Close_acknowledged_cancel_is_error :
  url_parses "A" = true ->
  Close (session_at "A" [] false) (world_of [status_reply 204 "204 No Content"])
  = Some ((Some "unexpected http status: 204 No Content",
           session_at "A" [] true),
          {| pending := [];
             trace := [Sent (cancel_request (session_at "A" [] false))] |}).
Proof.
  intros Hu.
  exact (Close_open_settles (session_at "A" [] false)
           (world_of [status_reply 204 "204 No Content"]) [] []
           (status_reply 204 "204 No Content")
           eq_refl Hu (Forall_nil _) eq_refl eq_refl).
Qed.

(** ** Progress accounting *)

Lemma fetchNext_store_progress (q : Query) (res : queryResult) :
  progress (fetchNext_store q res)
  = if Scheduled (Stats res) then
      (float64_of_int (CompletedSplits (Stats res))
       / float64_of_int (TotalSplits (Stats res)))%float
    else ProgressUnknown.
Proof.
  unfold fetchNext_store.
  destruct (NextUri res =? "")%string; destruct (Scheduled (Stats res));
    reflexivity.
Qed.

Lemma progress_unscheduled (q : Query) (res : queryResult) :
  Scheduled (Stats res) = false ->
  Query_Progress (fetchNext_store q res) = ProgressUnknown.
Proof.
  intros H. unfold Query_Progress. rewrite fetchNext_store_progress, H.
  reflexivity.
Qed.

Lemma progress_three_of_ten (q : Query) (next : string) (rows : list Row) :
  Query_Progress (fetchNext_store q (envelope next rows "" true 3 10))
  = 0x1.3333333333333p-2%float.
Proof.
  unfold Query_Progress. rewrite fetchNext_store_progress. reflexivity.
Qed.

(** C2 (evaluation at the failing input): a poll, at a handle that parses,
    answered with [scheduled = true] and [totalSplits = 0] leaves the
    progress at the float quotient 0/0, which is NaN and not
    [ProgressUnknown]. *)
Theorem fetchNext_progress_zero_total_is_nan :
  url_parses "A" = true ->
  exists q',
    fetchNext (session_at "A" [] false)
      (world_of [ok_reply (envelope "A" [] "" true 0 0)])
    = Some ((None, q'),
            {| pending := [];
               trace := [Sent (poll_request (session_at "A" [] false))] |}) /\
    is_nan (Query_Progress q') = true /\
    Query_Progress q' <> ProgressUnknown.
Proof.
  intros Hu.
  exists (fetchNext_store (session_at "A" [] false)
            (envelope "A" [] "" true 0 0)).
  split; [|split; [vm_compute; reflexivity|]].
  - rewrite (fetchNext_settles (session_at "A" [] false)
               (world_of [ok_reply (envelope "A" [] "" true 0 0)]) []
               (ok_reply (envelope "A" [] "" true 0 0)) []
               Hu (Forall_nil _) eq_refl eq_refl).
    reflexivity.
  - intro H. apply (f_equal is_nan) in H. vm_compute in H. discriminate.
Qed.

(** ** The handle invariant *)

Lemma fetchNext_store_nextUri (q : Query) (res : queryResult) :
  nextUri (fetchNext_store q res) = NextUri res.
Proof.
  unfold fetchNext_store.
  destruct (NextUri res =? "")%string, (Scheduled (Stats res)),
    (is_nil (columns _) && _); reflexivity.
Qed.

Lemma fetchNext_store_closed (q : Query) (res : queryResult) :
  closed (fetchNext_store q res)
  = if (NextUri res =? "")%string then true else closed q.
Proof.
  unfold fetchNext_store.
  destruct (NextUri res =? "")%string, (Scheduled (Stats res)),
    (is_nil (columns _) && _); reflexivity.
Qed.

Lemma fetchNext_store_bufferedRows (q : Query) (res : queryResult) :
  bufferedRows (fetchNext_store q res) = Data res.
Proof.
  unfold fetchNext_store.
  destruct (NextUri res =? "")%string, (Scheduled (Stats res)),
    (is_nil (columns _) && _); reflexivity.
Qed.

Lemma fetchNext_store_inv (q : Query) (res : queryResult) :
  handle_inv (fetchNext_store q res).
Proof.
  unfold handle_inv.
  rewrite fetchNext_store_nextUri, fetchNext_store_closed.
  intros ->. reflexivity.
Qed.

Lemma fetchNext_inv (q q' : Query) (w w' : World) (e : error) :
  fetchNext q w = Some ((e, q'), w') -> handle_inv q'.
Proof.
  unfold fetchNext, bind.
  destruct (fetchResult q _ w) as [[[res|msg] w1]|]; intros H;
    inversion H; subst.
  - apply fetchNext_store_inv.
  - intros _. reflexivity.
Qed.

Lemma Next_loop_inv :
  forall (fuel : nat) (retry : Duration) (q q' : Query) (w w' : World)
         (e : error),
    handle_inv q ->
    Next_loop fuel retry q w = Some ((e, q'), w') ->
    handle_inv q'.
Proof.
  induction fuel as [|fuel IH]; intros retry q q' w w' e Hq H;
    [discriminate H|].
  cbn [Next_loop] in H.
  destruct (negb (closed q) && _).
  - unfold bind at 1 in H.
    destruct (fetchNext q w) as [[[e1 q1] w1]|] eqn:Hf; [|discriminate H].
    pose proof (fetchNext_inv _ _ _ _ _ Hf) as Hq1.
    destruct e1 as [msg|].
    + inversion H; subst. exact Hq1.
    + destruct (List.length (bufferedRows q1) =? 0)%nat.
      * unfold bind, time_Sleep in H. eapply IH; eassumption.
      * eapply IH; eassumption.
  - inversion H; subst. exact Hq.
Qed.

Lemma Next_inv (q q' : Query) (w w' : World) (r : Row * error) :
  handle_inv q ->
  Next q w = Some ((r, q'), w') ->
  handle_inv q'.
Proof.
  intros Hq H. unfold Next, bind in H.
  destruct (Next_loop _ _ q w) as [[[e q1] w1]|] eqn:Hl; [|discriminate H].
  pose proof (Next_loop_inv _ _ _ _ _ _ _ Hq Hl) as Hq1.
  destruct e as [msg|].
  - inversion H; subst. exact Hq1.
  - destruct (bufferedRows q1) as [|row rest]; inversion H; subst; exact Hq1.
Qed.

Lemma Close_closed (q q' : Query) (w w' : World) (e : error) :
  Close q w = Some ((e, q'), w') -> closed q' = true.
Proof.
  unfold Close. destruct (closed q) eqn:Hc.
  - intros H. inversion H; subst. exact Hc.
  - unfold bind.
    destruct (makeRequest _ _ w) as [[[resp|msg] w1]|]; intros H;
      [destruct (negb _)| |]; inversion H; reflexivity.
Qed.

Lemma NewQuery_object_inv (host user source catalog schema query : string)
      (w w' : World) (e : error) (q : Query) :
  NewQuery_object host user source catalog schema query w = Some ((e, q), w') ->
  handle_inv q.
Proof.
  unfold NewQuery_object, bind.
  destruct (postQuery _ w) as [[[e1 q1] w1]|] eqn:Hp; [|discriminate].
  destruct e1 as [msg|].
  - intros H. inversion H; subst.
    unfold postQuery, bind in Hp.
    destruct (fetchResult _ _ w) as [[[res|msg'] w2]|]; inversion Hp.
    intros _. reflexivity.
  - apply fetchNext_inv.
Qed.

(** C3: on every session a caller can hold (returned by [NewQuery], then
    passed through any calls of [Next] and [Close], whatever the transport
    answered), an empty [nextUri] implies [closed]. *)
Theorem empty_handle_implies_closed (q : Query) :
  reachable q -> nextUri q = "" -> closed q = true.
Proof.
  intros Hr. change (handle_inv q).
  induction Hr as [h u s c sc qt w w' q H | q q' w w' r _ IH H
                  | q q' w w' e _ IH H].
  - unfold NewQuery, bind in H.
    destruct (NewQuery_object h u s c sc qt w) as [[[e q0] w0]|] eqn:Ho;
      [|discriminate H].
    destruct e; inversion H; subst.
    eapply NewQuery_object_inv; eassumption.
  - eapply Next_inv; eassumption.
  - intros _. eapply Close_closed; eassumption.
Qed.

(** ** A closed session *)

Lemma Next_loop_idle (fuel : nat) (retry : Duration) (q : Query) (w : World) :
  closed q = true \/ bufferedRows q <> [] ->
  Next_loop (S fuel) retry q w = Some ((None, q), w).
Proof.
  intros H. cbn [Next_loop].
  destruct H as [-> | H]; [reflexivity|].
  destruct (bufferedRows q); [contradiction|].
  cbn [List.length Nat.eqb]. rewrite andb_false_r. reflexivity.
Qed.

Lemma Next_idle (q : Query) (w : World) :
  closed q = true \/ bufferedRows q <> [] ->
  Next q w = Some (pop q, w).
Proof.
  intros H. unfold Next, bind, Next_fuel.
  rewrite Next_loop_idle by exact H.
  unfold pop. destruct (bufferedRows q); reflexivity.
Qed.

Lemma set_closed_same (q : Query) : closed q = true -> set_closed q true = q.
Proof. destruct q. simpl. intros ->. reflexivity. Qed.

Lemma set_bufferedRows_same (q : Query) (rows : list Row) :
  bufferedRows q = rows -> set_bufferedRows q rows = q.
Proof. destruct q. simpl. intros ->. reflexivity. Qed.

Lemma Next_n_closed :
  forall (rows : list Row) (q : Query) (w : World),
    closed q = true ->
    bufferedRows q = rows ->
    Next_n (List.length rows) q w
    = Some ((map (fun r => (r, None)) rows, set_bufferedRows q []), w).
Proof.
  induction rows as [|row rows IH]; intros q w Hc Hb.
  - simpl. unfold ret. now rewrite set_bufferedRows_same.
  - cbn [List.length Next_n]. unfold bind at 1.
    rewrite Next_idle by auto. unfold pop. rewrite Hb. cbn [snd fst].
    unfold bind. rewrite (IH (set_bufferedRows q rows) w Hc eq_refl).
    reflexivity.
Qed.

Lemma fetchNext_closed_stays (q q' : Query) (w w' : World) (e : error) :
  closed q = true ->
  fetchNext q w = Some ((e, q'), w') ->
  closed q' = true.
Proof.
  intros Hc. unfold fetchNext, bind.
  destruct (fetchResult q _ w) as [[[res|msg] w1]|]; intros H;
    inversion H; subst; [|reflexivity].
  rewrite fetchNext_store_closed, Hc. now destruct (_ =? _)%string.
Qed.

Lemma postQuery_closed_stays (q q' : Query) (w w' : World) (e : error) :
  closed q = true ->
  postQuery q w = Some ((e, q'), w') ->
  closed q' = true.
Proof.
  intros Hc. unfold postQuery, bind.
  destruct (fetchResult q _ w) as [[[res|msg] w1]|]; intros H;
    inversion H; subst; [exact Hc|reflexivity].
Qed.

(** C6: on a closed session [Close] returns nil and changes nothing, and
    [Next] returns without an error, leaves the world as it was (no request
    sent, no sleep) and leaves the session closed. *)
Theorem closed_is_terminal (q : Query) (w : World) :
  closed q = true ->
  Close q w = Some ((None, q), w) /\
  Next q w = Some (pop q, w) /\
  closed (snd (pop q)) = true /\
  snd (fst (pop q)) = None.
Proof.
  intros Hc. split; [|split; [|split]].
  - unfold Close. rewrite Hc. reflexivity.
  - apply Next_idle. now left.
  - unfold pop. destruct (bufferedRows q); exact Hc.
  - unfold pop. destruct (bufferedRows q); reflexivity.
Qed.

(** ** Close leaves the rest alone *)

Lemma Close_frame (q q' : Query) (w w' : World) (e : error) :
  Close q w = Some ((e, q'), w') -> q' = set_closed q true.
Proof.
  unfold Close. destruct (closed q) eqn:Hc.
  - intros H. inversion H; subst. now rewrite set_closed_same.
  - unfold bind.
    destruct (makeRequest _ _ w) as [[[resp|msg] w1]|]; intros H;
      [destruct (negb _)| |]; inversion H; reflexivity.
Qed.

(** C9: whatever [Close] returns, the session it leaves differs from the one
    it was given in the [closed] flag alone; the rows buffered at that moment
    then come out of the following calls of [Next] in order, each with a nil
    error, followed by the end-of-data pair, and none of these calls touches
    the world (no request, no sleep). *)
Theorem Close_changes_closed_only (q q' : Query) (w w' : World) (e : error) :
  Close q w = Some ((e, q'), w') ->
  q' = set_closed q true /\
  bufferedRows q' = bufferedRows q /\ columns q' = columns q /\
  nextUri q' = nextUri q /\ progress q' = progress q /\ id q' = id q /\
  state q' = state q /\
  forall w1 : World,
    Next_n (List.length (bufferedRows q)) q' w1
    = Some ((map (fun r => (r, None)) (bufferedRows q),
             set_bufferedRows q' []), w1) /\
    Next (set_bufferedRows q' []) w1
    = Some (((None, None), set_bufferedRows q' []), w1).
Proof.
  intros H. apply Close_frame in H. subst q'.
  repeat (split; [reflexivity|]).
  intros w1. split.
  - apply Next_n_closed; reflexivity.
  - rewrite Next_idle by (left; reflexivity). reflexivity.
Qed.

(** ** One poll of [Next] and the two requests of [NewQuery] *)

Lemma Next_loop_poll_fails (fuel : nat) (retry : Duration) (q q1 : Query)
      (w w1 : World) (e : string) :
  closed q = false -> bufferedRows q = [] ->
  fetchNext q w = Some ((Some e, q1), w1) ->
  Next_loop (S fuel) retry q w = Some ((Some e, q1), w1).
Proof.
  intros Hc Hb Hf. cbn [Next_loop]. rewrite Hc, Hb. cbn [negb andb List.length Nat.eqb].
  unfold bind. rewrite Hf. reflexivity.
Qed.

Lemma Next_poll_fails (q q1 : Query) (w w1 : World) (e : string) :
  closed q = false -> bufferedRows q = [] ->
  fetchNext q w = Some ((Some e, q1), w1) ->
  Next q w = Some (((None, Some e), q1), w1).
Proof.
  intros Hc Hb Hf. unfold Next, bind, Next_fuel.
  rewrite (Next_loop_poll_fails _ _ _ _ _ _ _ Hc Hb Hf). reflexivity.
Qed.

(** A poll that brings rows: [Next] returns the first and keeps the rest. *)
Lemma Next_polls_rows (q : Query) (w : World) (r : Reply) (res : queryResult)
      (row : Row) (rows : list Row) (rest : list Reply) :
  closed q = false -> bufferedRows q = [] ->
  url_parses (nextUri q) = true ->
  carries r res -> successful res ->
  Data res = row :: rows ->
  pending w = r :: rest ->
  Next q w
  = Some (((row, None), set_bufferedRows (fetchNext_store q res) rows),
          after_call (poll_request q) w 0 rest).
Proof.
  intros Hc Hb Hu Hr Hs Hd Hp.
  unfold Next, Next_fuel. rewrite Hp. cbn [List.length].
  unfold bind at 1. cbn [Next_loop]. rewrite Hc, Hb.
  cbn [negb andb List.length Nat.eqb]. unfold bind at 1.
  rewrite (fetchNext_settles q w [] r rest Hu (Forall_nil _)
             (carries_ready _ _ Hr) Hp).
  rewrite (digest_success _ _ Hr Hs).
  cbv beta iota. rewrite fetchNext_store_bufferedRows, Hd.
  cbn [List.length Nat.eqb]. cbv beta iota.
  rewrite andb_false_r. unfold ret.
  rewrite fetchNext_store_bufferedRows, Hd. reflexivity.
Qed.

Lemma NewQuery_object_first_poll
      (host user source catalog schema query : string)
      (r0 : Reply) (sub : queryResult) (script : list Reply) (tr : list Event) :
  url_parses (host ++ "/v1/statement") = true ->
  carries r0 sub ->
  Message (FailureInfo (Error sub)) = "" ->
  let q := NewQuery_fresh host user source catalog schema query in
  NewQuery_object host user source catalog schema query
    {| pending := r0 :: script; trace := tr |}
  = fetchNext (submitted q sub)
      {| pending := script; trace := tr ++ [Sent (submit_request q)] |}.
Proof.
  intros Hu Hr0 Hm q. unfold NewQuery_object. fold q.
  unfold bind at 1.
  rewrite (postQuery_settles q _ [] r0 script);
    [|exact Hu|constructor|eapply carries_ready; eassumption|reflexivity].
  rewrite (digest_success _ _ Hr0 Hm). reflexivity.
Qed.

Lemma NewQuery_of_object (host user source catalog schema query : string)
      (w w' : World) (e : string) (q : Query) :
  NewQuery_object host user source catalog schema query w
  = Some ((Some e, q), w') ->
  NewQuery host user source catalog schema query w = Some (Err e, w').
Proof. intros H. unfold NewQuery, bind. rewrite H. reflexivity. Qed.

(** Submission and first poll both answered by a successful envelope. *)
Lemma NewQuery_two_replies
      (host user source catalog schema query : string)
      (w : World) (r0 r1 : Reply) (sub res : queryResult)
      (rest : list Reply) :
  url_parses (host ++ "/v1/statement") = true ->
  url_parses (NextUri sub) = true ->
  carries r0 sub -> successful sub ->
  carries r1 res -> successful res ->
  pending w = r0 :: r1 :: rest ->
  let q0 := NewQuery_fresh host user source catalog schema query in
  NewQuery host user source catalog schema query w
  = Some (Ok (fetchNext_store (submitted q0 sub) res),
          {| pending := rest;
             trace := trace w ++ [Sent (submit_request q0);
                                  Sent (poll_request (submitted q0 sub))] |}).
Proof.
  intros Hu0 Hu1 Hr0 Hs0 Hr1 Hs1 Hp q0.
  unfold NewQuery. unfold bind at 1.
  destruct w as [p tr]. simpl in Hp. subst p.
  rewrite (NewQuery_object_first_poll host user source catalog schema query
             r0 sub (r1 :: rest) tr Hu0 Hr0 Hs0).
  cbv zeta. fold q0.
  rewrite (fetchNext_settles (submitted q0 sub)
             {| pending := r1 :: rest;
                trace := tr ++ [Sent (submit_request q0)] |}
             [] r1 rest Hu1 (Forall_nil _) (carries_ready _ _ Hr1) eq_refl).
  rewrite (digest_success _ _ Hr1 Hs1).
  unfold after_call. cbn [call_log trace pending List.length].
  rewrite <- app_assoc. reflexivity.
Qed.

(** ** End of data *)

(** C8: on a closed session with an empty buffer [Next] returns the nil row
    with the nil error and sends nothing.  In the scenario where the
    submission yields handle [A], the first poll at [A] yields no rows and
    [A] again, and the second poll yields two rows and the empty handle,
    three calls of [Next] return the first row, the second row and then the
    end-of-data pair, and the session is closed, provided the url of the
    submission and the handle [A] parse.  (The first poll is the one
    [NewQuery] makes, outside the loop of [Next], so no sleep is taken.) *)
Theorem Next_end_of_data :
  (forall (q : Query) (w : World),
      closed q = true -> bufferedRows q = [] ->
      Next q w = Some (((None, None), q), w)) /\
  (forall (A : string) (row1 row2 : Row),
      A <> "" ->
      url_parses "http://coordinator:8080/v1/statement" = true ->
      url_parses A = true ->
      exists q0 w0 q1 w1 q2 w2 q3 w3,
        NewQuery "http://coordinator:8080" "" "" "" "" "select 1"
          (world_of [ok_reply (envelope A [] "" false 0 0);
                     ok_reply (envelope A [] "" false 0 0);
                     ok_reply (envelope "" [row1; row2] "" true 1 1)])
        = Some (Ok q0, w0) /\
        Next q0 w0 = Some (((row1, None), q1), w1) /\
        Next q1 w1 = Some (((row2, None), q2), w2) /\
        Next q2 w2 = Some (((None, None), q3), w3) /\
        closed q3 = true /\ pending w3 = [] /\
        sleeps_of (trace w3) = []).
Proof.
  split.
  - intros q w Hc Hb. rewrite Next_idle by (now left).
    unfold pop. rewrite Hb. reflexivity.
  - intros A row1 row2 HA Hu0 HuA.
    apply String.eqb_neq in HA.
    pose proof (NewQuery_two_replies "http://coordinator:8080" "" "" "" ""
                  "select 1"
                  (world_of [ok_reply (envelope A [] "" false 0 0);
                             ok_reply (envelope A [] "" false 0 0);
                             ok_reply (envelope "" [row1; row2] "" true 1 1)])
                  _ _ (envelope A [] "" false 0 0) (envelope A [] "" false 0 0)
                  [ok_reply (envelope "" [row1; row2] "" true 1 1)]
                  Hu0 HuA (carries_ok_reply _) eq_refl (carries_ok_reply _)
                  eq_refl eq_refl) as H0.
    cbv zeta in H0.
    match type of H0 with
    | _ = Some (Ok ?q, ?w) => set (q0 := q) in *; set (w0 := w) in *
    end.
    assert (Hc0 : closed q0 = false).
    { unfold q0. rewrite fetchNext_store_closed.
      cbn [NextUri envelope]. rewrite HA. reflexivity. }
    assert (Hb0 : bufferedRows q0 = [])
      by (unfold q0; rewrite fetchNext_store_bufferedRows; reflexivity).
    assert (Hn0 : nextUri q0 = A)
      by (unfold q0; rewrite fetchNext_store_nextUri; reflexivity).
    pose proof (Next_polls_rows q0 w0 _
                  (envelope "" [row1; row2] "" true 1 1) row1 [row2] []
                  Hc0 Hb0 (eq_trans (f_equal url_parses Hn0) HuA)
                  (carries_ok_reply _) eq_refl eq_refl eq_refl) as H1.
    match type of H1 with
    | _ = Some (_, ?q, ?w) => set (q1 := q) in *; set (w1 := w) in *
    end.
    assert (Hc1 : closed q1 = true)
      by (unfold q1; cbn [closed set_bufferedRows];
          rewrite fetchNext_store_closed; reflexivity).
    exists q0, w0, q1, w1, (set_bufferedRows q1 []), w1,
      (set_bufferedRows q1 []), w1.
    split; [exact H0|]. split; [exact H1|]. split; [|split].
    + rewrite Next_idle by (left; exact Hc1). reflexivity.
    + rewrite Next_idle by (left; exact Hc1). reflexivity.
    + split; [exact Hc1|]. split; reflexivity.
Qed.

(** ** A poll that fails *)

(** C5: a poll answered (after any number of not-ready replies) by an
    envelope whose failure message is not empty, on urls that parse.
    [fetchNext] returns the error [query failed: <message>] and leaves the
    session as it was but closed, so rows, columns and handle are not taken
    from the envelope.  [Next] on an open session with an empty buffer
    returns the nil row with that error, and the next call returns the
    end-of-data pair without touching the world; [NewQuery], when this is
    its first poll, returns that error and leaves its object closed with no
    rows and no columns. *)
Theorem query_failure_is_fatal (q : Query) (w : World)
        (waits rest : list Reply) (r : Reply) (res : queryResult) :
  all_not_ready waits ->
  carries r res ->
  Message (FailureInfo (Error res)) <> "" ->
  pending w = waits ++ r :: rest ->
  let msg := ("query failed: " ++ Message (FailureInfo (Error res)))%string in
  let w' := after_call (poll_request q) w (List.length waits) rest in
  (url_parses (nextUri q) = true ->
   fetchNext q w = Some ((Some msg, set_closed q true), w') /\
   closed (set_closed q true) = true /\
   bufferedRows (set_closed q true) = bufferedRows q /\
   columns (set_closed q true) = columns q /\
   nextUri (set_closed q true) = nextUri q) /\
  (url_parses (nextUri q) = true ->
   closed q = false -> bufferedRows q = [] ->
   (forall (fuel : nat) (retry : Duration),
       Next_loop (S fuel) retry q w = Some ((Some msg, set_closed q true), w')) /\
   Next q w = Some (((None, Some msg), set_closed q true), w') /\
   Next (set_closed q true) w'
   = Some (((None, None), set_closed q true), w')) /\
  (forall (host user source catalog schema query : string)
          (r0 : Reply) (sub : queryResult),
      url_parses (host ++ "/v1/statement") = true ->
      url_parses (NextUri sub) = true ->
      carries r0 sub ->
      Message (FailureInfo (Error sub)) = "" ->
      exists (q1 : Query) (w1 : World),
        NewQuery_object host user source catalog schema query
          {| pending := r0 :: pending w; trace := trace w |}
        = Some ((Some msg, q1), w1) /\
        NewQuery host user source catalog schema query
          {| pending := r0 :: pending w; trace := trace w |}
        = Some (Err msg, w1) /\
        closed q1 = true /\ bufferedRows q1 = [] /\ columns q1 = None /\
        nextUri q1 = NextUri sub /\ pending w1 = rest).
Proof.
  intros Hw Hr Hm Hp msg w'.
  assert (Hf : forall (q : Query) (w : World),
             url_parses (nextUri q) = true ->
             pending w = waits ++ r :: rest ->
             fetchNext q w
             = Some ((Some msg, set_closed q true),
                     after_call (poll_request q) w (List.length waits) rest)).
  { intros q0 w0 Hu0 Hp0.
    rewrite (fetchNext_settles q0 w0 waits r rest Hu0 Hw
               (carries_ready _ _ Hr) Hp0).
    rewrite (digest_failure _ _ Hr Hm). reflexivity. }
  split; [|split].
  - intros Hu. split; [apply Hf; assumption|]. repeat split.
  - intros Hu Hc Hb. split; [|split].
    + intros fuel retry. apply Next_loop_poll_fails; auto.
    + apply Next_poll_fails; auto.
    + rewrite Next_idle by (left; reflexivity).
      unfold pop. cbn [set_closed bufferedRows]. rewrite Hb. reflexivity.
  - intros h u s c sc qt r0 sub Hu0 Hu1 Hr0 Hm0.
    pose proof (NewQuery_object_first_poll h u s c sc qt r0 sub (pending w)
                  (trace w) Hu0 Hr0 Hm0) as Ho.
    cbv zeta in Ho. rewrite Hf in Ho; [|exact Hu1|exact Hp].
    do 2 eexists. split; [exact Ho|]. split.
    + eapply NewQuery_of_object. exact Ho.
    + repeat split.
Qed.

(** ** A fetch that fails below the envelope *)

Lemma fetch_fails_digest (r : Reply) (e : string) :
  fetch_fails r e -> not_ready r = false /\ digest r = Err e.
Proof.
  intros H. destruct H as [e | resp H200 H503 | resp e H200 Hb | resp e H200 Hb];
    unfold digest, settled, not_ready.
  - auto.
  - apply Z.eqb_neq in H200, H503. rewrite H200, H503. auto.
  - rewrite H200. cbn [Z.eqb Pos.eqb]. unfold readResult. rewrite Hb. auto.
  - rewrite H200. cbn [Z.eqb Pos.eqb]. unfold readResult. rewrite Hb. auto.
Qed.

(** C10: a fetch answered (after any number of not-ready replies) by a
    reply on which the client, the status, the reading or the decoding
    fails, on urls that parse.  [postQuery] and [fetchNext] return the error
    and leave the session as it was but closed; so does [Next] on an open
    session with an empty buffer, at any turn of its loop; and [NewQuery]
    leaves its object as built (when the submission fails) or as submitted
    (when its first poll fails), but closed.  The session so left has
    [closed] set and every other field as before the fetch. *)
Theorem failed_fetch_only_closes (q : Query) (w : World)
        (waits rest : list Reply) (r : Reply) (e : string) :
  all_not_ready waits ->
  fetch_fails r e ->
  pending w = waits ++ r :: rest ->
  let k := List.length waits in
  (url_parses (host q ++ "/v1/statement") = true ->
   postQuery q w
   = Some ((Some e, set_closed q true),
           after_call (submit_request q) w k rest)) /\
  (url_parses (nextUri q) = true ->
   fetchNext q w
   = Some ((Some e, set_closed q true),
           after_call (poll_request q) w k rest)) /\
  (url_parses (nextUri q) = true ->
   closed q = false -> bufferedRows q = [] ->
   (forall (fuel : nat) (retry : Duration),
       Next_loop (S fuel) retry q w
       = Some ((Some e, set_closed q true),
               after_call (poll_request q) w k rest)) /\
   Next q w
   = Some (((None, Some e), set_closed q true),
           after_call (poll_request q) w k rest)) /\
  (forall (host user source catalog schema query : string),
      url_parses (host ++ "/v1/statement") = true ->
      let q0 := NewQuery_fresh host user source catalog schema query in
      NewQuery_object host user source catalog schema query w
      = Some ((Some e, set_closed q0 true),
              after_call (submit_request q0) w k rest) /\
      forall (r0 : Reply) (sub : queryResult),
        url_parses (NextUri sub) = true ->
        carries r0 sub ->
        Message (FailureInfo (Error sub)) = "" ->
        exists w1 : World,
          NewQuery_object host user source catalog schema query
            {| pending := r0 :: pending w; trace := trace w |}
          = Some ((Some e, set_closed (submitted q0 sub) true), w1) /\
          pending w1 = rest) /\
  (forall q1 : Query,
      closed (set_closed q1 true) = true /\
      bufferedRows (set_closed q1 true) = bufferedRows q1 /\
      columns (set_closed q1 true) = columns q1 /\
      nextUri (set_closed q1 true) = nextUri q1 /\
      progress (set_closed q1 true) = progress q1 /\
      state (set_closed q1 true) = state q1 /\
      id (set_closed q1 true) = id q1).
Proof.
  intros Hw Hr Hp k.
  destruct (fetch_fails_digest _ _ Hr) as [Hn Hd].
  assert (Hf : forall (q : Query) (w : World),
             url_parses (nextUri q) = true ->
             pending w = waits ++ r :: rest ->
             fetchNext q w
             = Some ((Some e, set_closed q true),
                     after_call (poll_request q) w k rest)).
  { intros q0 w0 Hu0 Hp0.
    rewrite (fetchNext_settles q0 w0 waits r rest Hu0 Hw Hn Hp0), Hd.
    reflexivity. }
  assert (Hs : forall q : Query,
             url_parses (host q ++ "/v1/statement") = true ->
             postQuery q w
             = Some ((Some e, set_closed q true),
                     after_call (submit_request q) w k rest)).
  { intros q0 Hu0.
    rewrite (postQuery_settles q0 w waits r rest Hu0 Hw Hn Hp), Hd.
    reflexivity. }
  split; [apply Hs|]. split; [intros Hu; apply Hf; assumption|].
  split; [|split].
  - intros Hu Hc Hb. split.
    + intros fuel retry. apply Next_loop_poll_fails; auto.
    + apply Next_poll_fails; auto.
  - intros h u s c sc qt Hu0 q0. split.
    + unfold NewQuery_object. fold (NewQuery_fresh h u s c sc qt). fold q0.
      unfold bind. rewrite Hs by exact Hu0. reflexivity.
    + intros r0 sub Hu1 Hr0 Hm0.
      pose proof (NewQuery_object_first_poll h u s c sc qt r0 sub (pending w)
                    (trace w) Hu0 Hr0 Hm0) as Ho.
      cbv zeta in Ho. rewrite Hf in Ho; [|exact Hu1|exact Hp].
      eexists. split; [exact Ho|]. reflexivity.
  - intros q1. repeat split.
Qed.

(** ** Backoff *)

Lemma sleeps_of_app (a b : list Event) :
  sleeps_of (a ++ b) = sleeps_of a ++ sleeps_of b.
Proof. unfold sleeps_of. apply flat_map_app. Qed.

Lemma sleeps_of_call (k : nat) :
  forall (req : Request) (i : nat),
    sleeps_of (call_log req i k) = map delay (seq i k).
Proof.
  induction k as [|k IH]; intros req i; [reflexivity|].
  cbn [call_log seq map].
  change (sleeps_of ([Sent req; Slept (delay i)]
                       ++ call_log (drained req) (S i) k)
          = delay i :: map delay (seq (S i) k)).
  rewrite sleeps_of_app, IH. reflexivity.
Qed.

Lemma Next_loop_backoff :
  forall (polls : list EmptyPoll) (fuel i : nat) (q : Query) (w : World)
         (waits rest : list Reply) (r : Reply),
    (S (List.length polls) < fuel)%nat ->
    closed q = false -> bufferedRows q = [] ->
    url_parses (nextUri q) = true ->
    Forall empty_poll polls ->
    all_not_ready waits ->
    ends_run r ->
    pending w = flat_map poll_replies polls ++ waits ++ r :: rest ->
    exists (e : error) (q' : Query) (evs : list Event),
      Next_loop fuel (delay i) q w
      = Some ((e, q'), {| pending := rest; trace := trace w ++ evs |}) /\
      sleeps_of evs
      = backoff_run i polls ++ map delay (seq 0 (List.length waits))
          ++ closing_sleep (i + List.length polls) r.
Proof.
  induction polls as [|g polls IH];
    intros fuel i q w waits rest r Hfuel Hc Hb Hu Hg Hw [Hr He] Hp.
  - destruct fuel as [|[|fuel]]; [simpl in Hfuel; lia..|].
    cbn [flat_map app] in Hp.
    cbn [Next_loop]. rewrite Hc, Hb.
    cbn [negb andb List.length Nat.eqb]. unfold bind at 1.
    rewrite (fetchNext_settles q w waits _ rest Hu Hw Hr Hp).
    cbn [backoff_run app List.length]. rewrite Nat.add_0_r.
    unfold closing_sleep.
    destruct (digest r) as [res|msg].
    + cbv beta iota. rewrite fetchNext_store_bufferedRows.
      destruct (Data res) as [|row rows] eqn:Hdata.
      * destruct He as [He|He]; [contradiction|].
        cbn [List.length Nat.eqb]. cbv beta iota.
        unfold bind at 1, time_Sleep at 1.
        rewrite fetchNext_store_closed, He. cbn [String.eqb negb andb].
        unfold ret. cbn [pending trace after_call].
        do 3 eexists. split; [rewrite <- app_assoc; reflexivity|].
        rewrite sleeps_of_app, sleeps_of_call. reflexivity.
      * cbn [List.length Nat.eqb]. cbv beta iota.
        rewrite andb_false_r. unfold ret, after_call.
        do 3 eexists. split; [reflexivity|].
        rewrite sleeps_of_call, app_nil_r. reflexivity.
    + cbv beta iota. unfold ret, after_call.
      do 3 eexists. split; [reflexivity|].
      rewrite sleeps_of_call, app_nil_r. reflexivity.
  - destruct fuel as [|fuel]; [simpl in Hfuel; lia|].
    inversion Hg as [|? ? (Hgw & Hgm & Hgd & Hgn & Hgu) Hg']; subst.
    destruct g as [gw ge]. cbn [fst snd] in *.
    cbn [flat_map] in Hp. unfold poll_replies at 1 in Hp. cbn [fst snd] in Hp.
    rewrite <- !app_assoc in Hp. cbn [app] in Hp.
    cbn [Next_loop]. rewrite Hc, Hb.
    cbn [negb andb List.length Nat.eqb]. unfold bind at 1.
    rewrite (fetchNext_settles q w gw _ _ Hu Hgw
               (carries_ready _ _ (carries_ok_reply ge)) Hp).
    rewrite (digest_success _ _ (carries_ok_reply ge) Hgm).
    cbv beta iota.
    rewrite fetchNext_store_bufferedRows, Hgd.
    cbn [List.length Nat.eqb]. cbv beta iota.
    unfold bind at 1, time_Sleep at 1.
    rewrite nextRetry_delay.
    set (q1 := fetchNext_store q ge).
    set (w1 := {| pending := flat_map poll_replies polls
                                ++ waits ++ r :: rest;
                  trace := trace (after_call (poll_request q) w
                                    (List.length gw)
                                    (flat_map poll_replies polls
                                       ++ waits ++ r :: rest))
                           ++ [Slept (delay i)] |}).
    assert (Hf1 : (S (List.length polls) < fuel)%nat) by (simpl in Hfuel; lia).
    assert (Hc1 : closed q1 = false).
    { unfold q1. rewrite fetchNext_store_closed.
      apply String.eqb_neq in Hgn. rewrite Hgn. exact Hc. }
    assert (Hb1 : bufferedRows q1 = []).
    { unfold q1. rewrite fetchNext_store_bufferedRows. exact Hgd. }
    assert (Hu1 : url_parses (nextUri q1) = true).
    { unfold q1. rewrite fetchNext_store_nextUri. exact Hgu. }
    destruct (IH fuel (S i) q1 w1 waits rest r Hf1 Hc1 Hb1 Hu1 Hg' Hw
                (conj Hr He) eq_refl) as (e & q' & evs & Hl & Hs).
    match goal with
    | |- context [Next_loop fuel (delay (S i)) q1 ?x] => change x with w1
    end.
    rewrite Hl.
    unfold w1. cbn [trace after_call].
    do 3 eexists. split.
    + rewrite <- !app_assoc. reflexivity.
    + rewrite !sleeps_of_app, sleeps_of_call, Hs.
      cbn [backoff_run fst List.length]. simpl sleeps_of.
      rewrite Nat.add_succ_comm, <- !app_assoc. reflexivity.
Qed.

Lemma length_poll_replies (polls : list EmptyPoll) :
  (List.length polls <= List.length (flat_map poll_replies polls))%nat.
Proof.
  induction polls as [|g polls IH]; [reflexivity|].
  cbn [flat_map]. unfold poll_replies at 1.
  rewrite !length_app. simpl. lia.
Qed.

Lemma backoff_run_plain (envs : list queryResult) :
  forall i : nat,
    backoff_run i (map (fun e => ([], e)) envs)
    = map delay (seq i (List.length envs)).
Proof.
  induction envs as [|e envs IH]; intros i; [reflexivity|].
  simpl. rewrite IH. reflexivity.
Qed.

(** C7: the delays are [delay 0 = 50ms] and [delay (i+1) = min (2 * delay i)
    800ms], none above 800ms.  A transport call that sees [k] not-ready
    replies in a row sleeps [delay 0 .. delay (k-1)].  A call of [Next] that
    makes [n] empty polls in a row which keep the session open sleeps
    [delay i] after the [i]-th of them, counted from 0 in every call,
    whatever happened before (each poll's transport call in between running
    its own delays from [delay 0]); the run may end with a failure, with an
    envelope that has rows, or with an envelope that closes the session, and
    in this last case, when that envelope has no rows, the call sleeps
    [delay n] once more before it returns. *)
Theorem backoff_schedule :
  (delay 0 = 50 * Millisecond /\
   forall i : nat,
     delay (S i) = Z.min (2 * delay i) (800 * Millisecond) /\
     delay i <= 800 * Millisecond /\
     nextRetry (delay i) = delay (S i)) /\
  (forall (q : Query) (req : Request) (w : World) (waits rest : list Reply)
          (r : Reply),
      all_not_ready waits -> not_ready r = false ->
      pending w = waits ++ r :: rest ->
      exists (res : result Response) (evs : list Event),
        makeRequest q (Some req) w
        = Some (res, {| pending := rest; trace := trace w ++ evs |}) /\
        sleeps_of evs = map delay (seq 0 (List.length waits))) /\
  (forall (polls : list EmptyPoll) (q : Query) (w : World)
          (waits rest : list Reply) (r : Reply),
      closed q = false -> bufferedRows q = [] ->
      url_parses (nextUri q) = true ->
      Forall empty_poll polls ->
      all_not_ready waits ->
      ends_run r ->
      pending w = flat_map poll_replies polls ++ waits ++ r :: rest ->
      exists (x : Row * error) (q' : Query) (evs : list Event),
        Next q w
        = Some ((x, q'), {| pending := rest; trace := trace w ++ evs |}) /\
        sleeps_of evs
        = backoff_run 0 polls ++ map delay (seq 0 (List.length waits))
            ++ closing_sleep (List.length polls) r) /\
  (forall (envs : list queryResult) (i : nat),
      backoff_run i (map (fun e => ([], e)) envs)
      = map delay (seq i (List.length envs))).
Proof.
  split; [|split; [|split]].
  - split; [reflexivity|]. intros i. split; [apply delay_doubles|].
    split; [apply delay_bounds|apply nextRetry_delay].
  - intros q req w waits rest r Hw Hr Hp.
    rewrite (makeRequest_settles q req w waits r rest Hw Hr Hp).
    unfold after_call. do 2 eexists. split; [reflexivity|].
    apply sleeps_of_call.
  - intros polls q w waits rest r Hc Hb Hu Hg Hw He Hp.
    destruct (Next_loop_backoff polls (Next_fuel w) 0 q w waits rest r)
      as (e & q' & evs & Hl & Hs); auto.
    { unfold Next_fuel. rewrite Hp, length_app.
      pose proof (length_poll_replies polls).
      rewrite length_app. simpl. lia. }
    unfold Next, bind. rewrite delay_0 in Hl. rewrite Hl.
    destruct e as [msg|]; [|destruct (bufferedRows q')];
      unfold ret; do 3 eexists; (split; [reflexivity|exact Hs]).
  - apply backoff_run_plain.
Qed.

(** ** Rows in arrival order *)

Lemma ends_session_open_until_last (envs : list queryResult) :
  ends_session envs = true -> open_until_last envs = true.
Proof.
  induction envs as [|e envs IH]; [discriminate|].
  cbn [ends_session open_until_last].
  destruct envs as [|e' envs]; [reflexivity|].
  intros H. apply andb_prop in H. destruct H as [H1 H2].
  rewrite H1, IH by exact H2. reflexivity.
Qed.

Lemma fed_store (q : Query) (e : queryResult) (envs : list queryResult)
      (w1 : World) :
  closed q = false ->
  open_until_last (e :: envs) = true ->
  handles_parse (e :: envs) = true ->
  Forall successful envs ->
  pending w1 = map ok_reply envs ->
  fed (fetchNext_store q e) w1 envs.
Proof.
  intros Hc He Hh Hs Hp. split; [exact Hp|]. split; [exact Hs|].
  rewrite fetchNext_store_closed, fetchNext_store_nextUri.
  cbn [open_until_last] in He. cbn [handles_parse] in Hh.
  destruct envs as [|e' envs].
  - split; [reflexivity|]. split; [reflexivity|].
    split; [intros H; now contradiction H|reflexivity].
  - apply andb_prop in He. destruct He as [He1 He2].
    apply andb_prop in Hh. destruct Hh as [Hh1 Hh2].
    apply negb_true_iff in He1. rewrite He1, Hc.
    split; [discriminate|]. split; [exact He2|].
    split; [intros _; exact Hh1|exact Hh2].
Qed.

Lemma will_end_store (q : Query) (e : queryResult) (envs : list queryResult) :
  closed q = false ->
  will_end q (e :: envs) ->
  will_end (fetchNext_store q e) envs.
Proof.
  intros Hc [Hq | He]; [congruence|].
  unfold will_end. rewrite fetchNext_store_closed.
  cbn [ends_session] in He. destruct envs as [|e' envs].
  - left. rewrite He. reflexivity.
  - right. apply andb_prop in He. apply He.
Qed.

Lemma Next_loop_drains :
  forall (envs : list queryResult) (fuel : nat) (retry : Duration)
         (q : Query) (w : World),
    (List.length envs < fuel)%nat ->
    bufferedRows q = [] ->
    fed q w envs ->
    will_end q envs \/ List.concat (map Data envs) <> [] ->
    exists (q' : Query) (w' : World) (envs' : list queryResult),
      Next_loop fuel retry q w = Some ((None, q'), w') /\
      fed q' w' envs' /\
      outstanding q' envs' = outstanding q envs /\
      (bufferedRows q' = [] -> closed q' = true) /\
      (will_end q envs -> will_end q' envs').
Proof.
  induction envs as [|e envs IH]; intros fuel retry q w Hfuel Hb Hfed Hgo;
    (destruct fuel as [|fuel]; [simpl in Hfuel; lia|]).
  - assert (Hc : closed q = true).
    { destruct Hgo as [[Hc | He] | Hd]; [exact Hc|discriminate He|].
      now contradiction Hd. }
    exists q, w, []. rewrite Next_loop_idle by (now left).
    split; [reflexivity|]. split; [exact Hfed|]. split; [reflexivity|].
    split; auto.
  - destruct Hfed as (Hp & Hs & Hcl & Ho & Hu & Hh).
    destruct (closed q) eqn:Hc; [specialize (Hcl eq_refl); discriminate Hcl|].
    assert (Hu' : url_parses (nextUri q) = true) by (apply Hu; discriminate).
    inversion Hs as [|? ? Hse Hs']; subst.
    cbn [map] in Hp.
    cbn [Next_loop]. rewrite Hc, Hb.
    cbn [negb andb List.length Nat.eqb]. unfold bind at 1.
    rewrite (fetchNext_settles q w [] _ _ Hu' (Forall_nil _)
               (carries_ready _ _ (carries_ok_reply e)) Hp).
    rewrite (digest_success _ _ (carries_ok_reply e) Hse).
    cbv beta iota.
    set (q1 := fetchNext_store q e).
    assert (Hb1 : bufferedRows q1 = Data e)
      by apply fetchNext_store_bufferedRows.
    assert (Hend : will_end q (e :: envs) -> will_end q1 envs)
      by (apply will_end_store; exact Hc).
    rewrite Hb1.
    destruct (Data e) as [|row rows] eqn:Hdata.
    + cbn [List.length Nat.eqb]. cbv beta iota.
      unfold bind at 1, time_Sleep at 1.
      match goal with
      | |- context [Next_loop fuel ?r q1 ?x] =>
          destruct (IH fuel r q1 x)
            as (q' & w' & envs' & Hl & Hfed' & Hout & Hq' & Hend')
      end.
      * simpl in Hfuel. lia.
      * exact Hb1.
      * apply fed_store; auto.
      * destruct Hgo as [Hgo | Hgo]; [left; auto|right].
        cbn [map List.concat] in Hgo. rewrite Hdata in Hgo. exact Hgo.
      * exists q', w', envs'. split; [exact Hl|]. split; [exact Hfed'|].
        split; [|split; [exact Hq'|auto]].
        rewrite Hout. unfold outstanding. rewrite Hb1, Hb. cbn [map List.concat].
        rewrite Hdata. reflexivity.
    + cbn [List.length Nat.eqb]. cbv beta iota.
      destruct fuel as [|fuel]; [simpl in Hfuel; lia|].
      rewrite Next_loop_idle by (right; rewrite Hb1; discriminate).
      exists q1, (after_call (poll_request q) w 0 (map ok_reply envs)), envs.
      split; [reflexivity|]. split; [apply fed_store; auto|].
      split; [|split; [rewrite Hb1; discriminate|exact Hend]].
      unfold outstanding. rewrite Hb1, Hb. cbn [map List.concat].
      rewrite Hdata. reflexivity.
Qed.

(** One call of [Next]: the first outstanding row comes out, or, when none
    is outstanding, the end-of-data pair on a session then closed. *)
Lemma Next_hands_out (q : Query) (w : World) (envs : list queryResult) :
  fed q w envs ->
  will_end q envs \/ outstanding q envs <> [] ->
  exists (x : Row * error) (q' : Query) (w' : World) (envs' : list queryResult),
    Next q w = Some ((x, q'), w') /\
    fed q' w' envs' /\
    (will_end q envs -> will_end q' envs') /\
    match outstanding q envs with
    | [] => x = (None, None) /\ closed q' = true /\ pending w' = [] /\
            outstanding q' envs' = []
    | row :: rows => x = (row, None) /\ outstanding q' envs' = rows
    end.
Proof.
  intros Hfed Hgo.
  destruct (bufferedRows q) as [|row0 buf] eqn:Hb.
  - destruct (Next_loop_drains envs (Next_fuel w) initialRetry q w)
      as (q1 & w1 & envs1 & Hl & Hfed1 & Ho & Hq1 & Hend1); auto.
    { destruct Hfed as (Hp & _). unfold Next_fuel. rewrite Hp, length_map. lia. }
    { unfold outstanding in Hgo. rewrite Hb in Hgo. exact Hgo. }
    unfold Next, bind. rewrite Hl. rewrite <- Ho. unfold outstanding at 1.
    destruct (bufferedRows q1) as [|row1 buf1] eqn:Hb1.
    + pose proof Hfed1 as (Hp1 & Hs1 & Hcl1 & Ho1 & Hu1 & Hh1).
      pose proof (Hcl1 (Hq1 eq_refl)) as Henvs. subst envs1.
      exists (None, None), q1, w1, []. split; [reflexivity|].
      split; [exact Hfed1|]. split; [exact Hend1|].
      cbn [map List.concat app].
      repeat split; auto. unfold outstanding. rewrite Hb1. reflexivity.
    + exists (row1, None), (set_bufferedRows q1 buf1), w1, envs1.
      split; [reflexivity|]. split; [exact Hfed1|]. split; [exact Hend1|].
      cbn [app]. split; reflexivity.
  - rewrite Next_idle by (right; rewrite Hb; discriminate).
    unfold pop, outstanding. rewrite Hb. cbn [app].
    exists (row0, None), (set_bufferedRows q buf), w, envs.
    split; [reflexivity|]. split; [exact Hfed|]. split; [exact (fun H => H)|].
    split; reflexivity.
Qed.

Lemma Next_n_hands_out :
  forall (rows : list Row) (q : Query) (w : World) (envs : list queryResult),
    fed q w envs ->
    outstanding q envs = rows ->
    exists (q' : Query) (w' : World) (envs' : list queryResult),
      Next_n (List.length rows) q w
      = Some ((map (fun r => (r, None)) rows, q'), w') /\
      fed q' w' envs' /\
      outstanding q' envs' = [] /\
      (will_end q envs -> will_end q' envs').
Proof.
  induction rows as [|row rows IH]; intros q w envs Hfed Ho.
  - exists q, w, envs. split; [reflexivity|]. split; [exact Hfed|].
    split; [exact Ho|]. exact (fun H => H).
  - destruct (Next_hands_out q w envs Hfed)
      as (x & q1 & w1 & envs1 & Hn & Hfed1 & Hend1 & Hx).
    { right. rewrite Ho. discriminate. }
    rewrite Ho in Hx. destruct Hx as [-> Ho1].
    destruct (IH q1 w1 envs1 Hfed1 Ho1)
      as (q' & w' & envs' & Hn' & Hfed' & Ho' & Hend').
    exists q', w', envs'.
    split; [|split; [exact Hfed'|split; [exact Ho'|auto]]].
    cbn [List.length Next_n]. unfold bind at 1. rewrite Hn. cbn [snd fst].
    unfold bind. rewrite Hn'. reflexivity.
Qed.

(** C4: an open session and a coordinator that answers its polls with
    successful envelopes, none of which but the last may carry the empty
    handle, the handles polled being ones that parse.  The successive calls of [Next] return the rows already buffered
    and then the rows of the envelopes' batches, concatenated in the order of
    the responses, each with a nil error.  When the last envelope carries the
    empty handle, the call after them returns the end-of-data pair, on a
    session then closed with every response consumed.  While the buffer
    holds a row, [Next] pops its head and sends nothing, so a batch replaces
    the buffer only when it is empty. *)
Theorem rows_in_arrival_order (envs : list queryResult) (q : Query)
        (w : World) :
  closed q = false ->
  Forall successful envs ->
  open_until_last envs = true ->
  (envs <> [] -> url_parses (nextUri q) = true) ->
  handles_parse envs = true ->
  pending w = map ok_reply envs ->
  let rows := bufferedRows q ++ List.concat (map Data envs) in
  (exists (q' : Query) (w' : World),
      Next_n (List.length rows) q w
      = Some ((map (fun r => (r, None)) rows, q'), w') /\
      (ends_session envs = true ->
       exists (q'' : Query) (w'' : World),
         Next q' w' = Some (((None, None), q''), w'') /\
         closed q'' = true /\ pending w'' = [])) /\
  (forall (q0 : Query) (w0 : World) (row : Row) (buf : list Row),
      bufferedRows q0 = row :: buf ->
      Next q0 w0 = Some (((row, None), set_bufferedRows q0 buf), w0)).
Proof.
  intros Hc Hs Ho Hu Hh Hp rows. split.
  - assert (Hfed : fed q w envs)
      by (split; [|split; [|split; [|split; [|split]]]]; auto; congruence).
    destruct (Next_n_hands_out rows q w envs Hfed eq_refl)
      as (q' & w' & envs' & Hn & Hfed' & Ho' & Hend').
    exists q', w'. split; [exact Hn|]. intros He.
    destruct (Next_hands_out q' w' envs' Hfed')
      as (x & q'' & w'' & envs'' & Hn' & _ & _ & Hx).
    { left. apply Hend'. right. exact He. }
    rewrite Ho' in Hx. destruct Hx as (-> & Hc'' & Hp'' & _).
    exists q'', w''. auto.
  - intros q0 w0 row buf Hb0.
    rewrite Next_idle by (right; rewrite Hb0; discriminate).
    unfold pop. rewrite Hb0. reflexivity.
Qed.

(** ** The fuel of the loops

    Both loops are given one unit of fuel more than there are replies
    pending.  Every turn that does not return consumes a reply, so the fuel
    never runs out first: any larger amount gives the same outcome, and
    [None] only ever means that the replies ran out or that the call
    panicked on a nil request. *)

Lemma makeRequest_loop_consumes :
  forall (fuel : nat) (req : Request) (retry : Duration) (w w' : World)
         (r : result Response),
    makeRequest_loop fuel req retry w = Some (r, w') ->
    (List.length (pending w') < List.length (pending w))%nat.
Proof.
  induction fuel as [|fuel IH]; intros req retry w w' r H; [discriminate H|].
  simpl in H. unfold bind, client_Do in H.
  destruct (pending w) as [|x rest] eqn:Hp; [discriminate H|].
  destruct x as [e|resp].
  - inversion H; subst. simpl. lia.
  - destruct (StatusCode resp =? 200); [inversion H; subst; simpl; lia|].
    destruct (negb _); [inversion H; subst; simpl; lia|].
    unfold time_Sleep in H. apply IH in H. simpl in *. lia.
Qed.

Lemma makeRequest_loop_fuel :
  forall (fuel1 fuel2 : nat) (req : Request) (retry : Duration) (w : World),
    (List.length (pending w) < fuel1)%nat ->
    (List.length (pending w) < fuel2)%nat ->
    makeRequest_loop fuel1 req retry w = makeRequest_loop fuel2 req retry w.
Proof.
  induction fuel1 as [|fuel1 IH]; intros fuel2 req retry w H1 H2; [lia|].
  destruct fuel2 as [|fuel2]; [lia|].
  simpl. unfold bind, client_Do.
  destruct (pending w) as [|x rest] eqn:Hp; [reflexivity|].
  destruct x as [e|resp]; [reflexivity|].
  destruct (StatusCode resp =? 200); [reflexivity|].
  destruct (negb _); [reflexivity|].
  unfold time_Sleep. apply IH; simpl in *; lia.
Qed.

Lemma fetchNext_consumes (q q' : Query) (w w' : World) (e : error) :
  fetchNext q w = Some ((e, q'), w') ->
  (List.length (pending w') < List.length (pending w))%nat.
Proof.
  unfold fetchNext, fetchResult, bind.
  destruct (NewRequest GET (nextUri q) "") as [req|]; [|discriminate].
  destruct (makeRequest q _ w) as [[r w1]|] eqn:Hm; [|discriminate].
  apply makeRequest_loop_consumes in Hm.
  destruct r as [resp|msg].
  - destruct (readResult resp) as [res|msg];
      [destruct (negb _)|]; intros H; inversion H; subst; exact Hm.
  - intros H; inversion H; subst; exact Hm.
Qed.

Lemma Next_loop_fuel :
  forall (fuel1 fuel2 : nat) (retry : Duration) (q : Query) (w : World),
    (List.length (pending w) < fuel1)%nat ->
    (List.length (pending w) < fuel2)%nat ->
    Next_loop fuel1 retry q w = Next_loop fuel2 retry q w.
Proof.
  induction fuel1 as [|fuel1 IH]; intros fuel2 retry q w H1 H2; [lia|].
  destruct fuel2 as [|fuel2]; [lia|].
  cbn [Next_loop].
  destruct (negb (closed q) && _); [|reflexivity].
  unfold bind at 1 3.
  destruct (fetchNext q w) as [[[e q1] w1]|] eqn:Hf; [|reflexivity].
  apply fetchNext_consumes in Hf.
  destruct e as [msg|]; [reflexivity|].
  destruct (List.length (bufferedRows q1) =? 0)%nat.
  - unfold bind, time_Sleep. apply IH; simpl; lia.
  - apply IH; lia.
Qed.


(** ** What a call of [Next] keeps and what it sends *)

Lemma fetchNext_result (q q' : Query) (w w' : World) (e : error) :
  fetchNext q w = Some ((e, q'), w') ->
  match e with
  | Some _ => q' = set_closed q true
  | None => exists res : queryResult, q' = fetchNext_store q res
  end.
Proof.
  unfold fetchNext, bind.
  destruct (fetchResult q _ w) as [[[res|msg] w1]|]; intros H;
    inversion H; subst; [exists res|]; reflexivity.
Qed.

Lemma fetchNext_store_same_session (q : Query) (res : queryResult) :
  same_session q (fetchNext_store q res).
Proof.
  unfold fetchNext_store, same_session.
  destruct (NextUri res =? "")%string, (Scheduled (Stats res)),
    (is_nil (columns _) && _); repeat split.
Qed.

Lemma fetchNext_store_columns (q : Query) (res : queryResult) :
  columns (fetchNext_store q res)
  = match columns q with
    | Some c => Some c
    | None =>
        match Columns res with
        | [] => None
        | _ :: _ => Some (map Name (Columns res))
        end
    end.
Proof.
  destruct q as [h u s c sc qt cl i cols buf st pr nu].
  unfold fetchNext_store.
  destruct (NextUri res =? "")%string, (Scheduled (Stats res)), cols,
    (Columns res); reflexivity.
Qed.

Lemma Next_loop_preserves (P : Query -> Prop) :
  (forall (q q' : Query) (w w' : World) (e : error),
      P q -> fetchNext q w = Some ((e, q'), w') -> P q') ->
  forall (fuel : nat) (retry : Duration) (q q' : Query) (w w' : World)
         (e : error),
    P q ->
    Next_loop fuel retry q w = Some ((e, q'), w') ->
    P q'.
Proof.
  intros Hstep.
  induction fuel as [|fuel IH]; intros retry q q' w w' e Hq H;
    [discriminate H|].
  cbn [Next_loop] in H.
  destruct (negb (closed q) && _).
  - unfold bind at 1 in H.
    destruct (fetchNext q w) as [[[e1 q1] w1]|] eqn:Hf; [|discriminate H].
    pose proof (Hstep _ _ _ _ _ Hq Hf) as Hq1.
    destruct e1 as [msg|].
    + inversion H; subst. exact Hq1.
    + destruct (List.length (bufferedRows q1) =? 0)%nat.
      * unfold bind, time_Sleep in H. eapply IH; eassumption.
      * eapply IH; eassumption.
  - inversion H; subst. exact Hq.
Qed.

Lemma Next_preserves (P : Query -> Prop) :
  (forall (q q' : Query) (w w' : World) (e : error),
      P q -> fetchNext q w = Some ((e, q'), w') -> P q') ->
  (forall (q : Query) (rows : list Row), P q -> P (set_bufferedRows q rows)) ->
  forall (q q' : Query) (w w' : World) (r : Row * error),
    P q ->
    Next q w = Some ((r, q'), w') ->
    P q'.
Proof.
  intros Hstep Hpop q q' w w' r Hq H. unfold Next, bind in H.
  destruct (Next_loop _ _ q w) as [[[e q1] w1]|] eqn:Hl; [|discriminate H].
  pose proof (Next_loop_preserves P Hstep _ _ _ _ _ _ _ Hq Hl) as Hq1.
  destruct e as [msg|].
  - inversion H; subst. exact Hq1.
  - destruct (bufferedRows q1) as [|row rest]; inversion H; subst; auto.
Qed.

(** X1: once the column names are recorded, no call of [Next] changes
    them, whatever the coordinator answers (column metadata of later
    responses included). *)
Theorem columns_set_once (q q' : Query) (w w' : World) (r : Row * error)
        (c : list string) :
  Query_Columns q = Some c ->
  Next q w = Some ((r, q'), w') ->
  Query_Columns q' = Some c.
Proof.
  unfold Query_Columns. intros Hq H.
  refine (Next_preserves (fun q0 => columns q0 = Some c) _ _ _ _ _ _ _ Hq H).
  - intros q0 q1 w0 w1 e Hc Hf. apply fetchNext_result in Hf.
    destruct e as [msg|].
    + subst q1. exact Hc.
    + destruct Hf as [res ->]. rewrite fetchNext_store_columns, Hc.
      reflexivity.
  - intros q0 rows Hc. exact Hc.
Qed.

(** X2: a call of [Next] leaves host, user, source, catalog, schema, query
    text and execution id as they were. *)
Theorem Next_keeps_session (q q' : Query) (w w' : World) (r : Row * error) :
  Next q w = Some ((r, q'), w') ->
  same_session q q'.
Proof.
  intros H.
  refine (Next_preserves (same_session q) _ _ _ _ _ _ _ _ H).
  - intros q0 q1 w0 w1 e Hs Hf. apply fetchNext_result in Hf.
    destruct e as [msg|].
    + subst q1. exact Hs.
    + destruct Hf as [res ->].
      pose proof (fetchNext_store_same_session q0 res) as Hs'.
      unfold same_session in *.
      destruct Hs as (A1 & A2 & A3 & A4 & A5 & A6 & A7).
      destruct Hs' as (B1 & B2 & B3 & B4 & B5 & B6 & B7).
      repeat split; congruence.
  - intros q0 rows Hs. exact Hs.
  - repeat split.
Qed.

Lemma nextRetry_range (retry : Duration) :
  in_backoff_range retry -> in_backoff_range (nextRetry retry).
Proof.
  unfold in_backoff_range, nextRetry, initialRetry, maxRetry, Millisecond.
  intros H. rewrite wrap64_small by lia. rewrite Z.gtb_ltb.
  match goal with
  | |- context [?a <? ?b] => destruct (Z.ltb_spec a b)
  end; lia.
Qed.

Lemma initialRetry_range : in_backoff_range initialRetry.
Proof. unfold in_backoff_range, initialRetry, maxRetry, Millisecond. lia. Qed.

Lemma makeRequest_loop_events :
  forall (fuel : nat) (req : Request) (retry : Duration) (w w' : World)
         (r : result Response),
    in_backoff_range retry ->
    makeRequest_loop fuel req retry w = Some (r, w') ->
    exists evs : list Event,
      trace w' = trace w ++ Sent req :: evs /\
      Forall (call_event req) evs.
Proof.
  induction fuel as [|fuel IH]; intros req retry w w' r Hr H;
    [discriminate H|].
  simpl in H. unfold bind, client_Do in H.
  destruct (pending w) as [|x rest]; [discriminate H|].
  destruct x as [e|resp].
  - inversion H; subst. exists []. split; [reflexivity|constructor].
  - destruct (StatusCode resp =? 200);
      [inversion H; subst; exists []; split; [reflexivity|constructor]|].
    destruct (negb _);
      [inversion H; subst; exists []; split; [reflexivity|constructor]|].
    unfold time_Sleep in H. cbn [pending trace] in H.
    apply IH in H; [|apply nextRetry_range; exact Hr].
    destruct H as (evs & Ht & Hev). cbn [trace] in Ht.
    exists (Slept retry :: Sent (drained req) :: evs). split.
    + rewrite Ht, <- !app_assoc. reflexivity.
    + constructor; [exact Hr|]. constructor; [right; reflexivity|].
      eapply Forall_impl; [|exact Hev].
      intros [r0|d] Hc; [|exact Hc]. right.
      destruct Hc as [-> | ->]; reflexivity.
Qed.

Lemma makeRequest_events (q : Query) (req : Request) (w w' : World)
      (r : result Response) :
  makeRequest q (Some req) w = Some (r, w') ->
  exists evs : list Event,
    trace w' = trace w ++ Sent (with_headers q req) :: evs /\
    Forall (call_event (with_headers q req)) evs.
Proof.
  unfold makeRequest. apply makeRequest_loop_events, initialRetry_range.
Qed.

Lemma fetchResult_events (q : Query) (req : Request) (w w' : World)
      (r : result queryResult) :
  fetchResult q (Some req) w = Some (r, w') ->
  exists evs : list Event,
    trace w' = trace w ++ Sent (with_headers q req) :: evs /\
    Forall (call_event (with_headers q req)) evs.
Proof.
  unfold fetchResult, bind.
  destruct (makeRequest q (Some req) w) as [[x w1]|] eqn:Hm; [|discriminate].
  apply makeRequest_events in Hm.
  destruct x as [resp|msg].
  - destruct (readResult resp) as [res|msg];
      [destruct (negb _)|]; intros H; inversion H; subst; exact Hm.
  - intros H; inversion H; subst; exact Hm.
Qed.

Lemma fetchNext_events (q q' : Query) (w w' : World) (e : error) :
  fetchNext q w = Some ((e, q'), w') ->
  exists evs : list Event,
    trace w' = trace w ++ Sent (poll_request q) :: evs /\
    Forall (call_event (poll_request q)) evs.
Proof.
  unfold fetchNext, bind, NewRequest.
  destruct (url_parses (nextUri q)); [|discriminate].
  destruct (fetchResult q _ w) as [[x w1]|] eqn:Hf; [|discriminate].
  apply fetchResult_events in Hf.
  destruct x; intros H; inversion H; subst; exact Hf.
Qed.

Lemma postQuery_events (q q' : Query) (w w' : World) (e : error) :
  postQuery q w = Some ((e, q'), w') ->
  exists evs : list Event,
    trace w' = trace w ++ Sent (submit_request q) :: evs /\
    Forall (call_event (submit_request q)) evs.
Proof.
  unfold postQuery, bind, NewRequest.
  destruct (url_parses (host q ++ "/v1/statement")); [|discriminate].
  destruct (fetchResult q _ w) as [[x w1]|] eqn:Hf; [|discriminate].
  apply fetchResult_events in Hf.
  destruct x; intros H; inversion H; subst; exact Hf.
Qed.

Lemma fetchNext_same_session (q q' : Query) (w w' : World) (e : error) :
  fetchNext q w = Some ((e, q'), w') -> same_session q q'.
Proof.
  intros H. apply fetchNext_result in H. destruct e as [msg|].
  - subst q'. repeat split.
  - destruct H as [res ->]. apply fetchNext_store_same_session.
Qed.

Lemma poll_event_of_call (q0 q : Query) (ev : Event) :
  same_session q0 q ->
  call_event (poll_request q) ev ->
  poll_event q0 ev.
Proof.
  intros (_ & Hu & Hs & Hc & Hsc & _) H. destruct ev as [r|d]; [|exact H].
  simpl in H. unfold poll_event, session_headers.
  rewrite <- Hu, <- Hs, <- Hc, <- Hsc.
  destruct H as [-> | ->]; repeat split.
Qed.

Lemma same_session_trans (q1 q2 q3 : Query) :
  same_session q1 q2 -> same_session q2 q3 -> same_session q1 q3.
Proof.
  unfold same_session.
  intros (A1 & A2 & A3 & A4 & A5 & A6 & A7) (B1 & B2 & B3 & B4 & B5 & B6 & B7).
  repeat split; congruence.
Qed.

Lemma Next_loop_events :
  forall (fuel : nat) (retry : Duration) (q0 q q' : Query) (w w' : World)
         (e : error),
    in_backoff_range retry ->
    same_session q0 q ->
    Next_loop fuel retry q w = Some ((e, q'), w') ->
    exists evs : list Event,
      trace w' = trace w ++ evs /\ Forall (poll_event q0) evs.
Proof.
  induction fuel as [|fuel IH]; intros retry q0 q q' w w' e Hr Hs H;
    [discriminate H|].
  cbn [Next_loop] in H.
  destruct (negb (closed q) && _).
  - unfold bind at 1 in H.
    destruct (fetchNext q w) as [[[e1 q1] w1]|] eqn:Hf; [|discriminate H].
    pose proof (same_session_trans _ _ _ Hs (fetchNext_same_session _ _ _ _ _ Hf))
      as Hs1.
    destruct (fetchNext_events _ _ _ _ _ Hf) as (evs1 & Ht1 & Hev1).
    assert (Hev1' : Forall (poll_event q0) (Sent (poll_request q) :: evs1)).
    { constructor.
      - apply (poll_event_of_call q0 q); [exact Hs|left; reflexivity].
      - eapply Forall_impl; [|exact Hev1].
        intros ev. apply poll_event_of_call. exact Hs. }
    destruct e1 as [msg|].
    + inversion H; subst. exists (Sent (poll_request q) :: evs1). auto.
    + destruct (List.length (bufferedRows q1) =? 0)%nat.
      * unfold bind, time_Sleep in H. cbn [pending trace] in H.
        eapply IH in H; [|apply nextRetry_range; exact Hr|exact Hs1].
        destruct H as (evs & Ht & Hev). cbn [trace] in Ht.
        exists ((Sent (poll_request q) :: evs1) ++ Slept retry :: evs).
        split.
        -- rewrite Ht, Ht1, <- !app_assoc. reflexivity.
        -- apply Forall_app. split; [exact Hev1'|].
           constructor; [exact Hr|exact Hev].
      * eapply IH in H; [|exact Hr|exact Hs1].
        destruct H as (evs & Ht & Hev).
        exists ((Sent (poll_request q) :: evs1) ++ evs). split.
        -- rewrite Ht, Ht1, <- !app_assoc. reflexivity.
        -- apply Forall_app. split; assumption.
  - inversion H; subst. exists []. split; [now rewrite app_nil_r|constructor].
Qed.

(** X3: whatever the coordinator answers, a call of [Next] only adds to
    the trace GET requests without a body that carry the session's five
    headers, and sleeps of at least 50ms and at most 800ms; it never sends a
    POST or a DELETE. *)
Theorem Next_only_polls (q q' : Query) (w w' : World) (r : Row * error) :
  Next q w = Some ((r, q'), w') ->
  exists evs : list Event,
    trace w' = trace w ++ evs /\ Forall (poll_event q) evs.
Proof.
  intros H. unfold Next, bind in H.
  destruct (Next_loop _ _ q w) as [[[e q1] w1]|] eqn:Hl; [|discriminate H].
  assert (Hs : same_session q q) by (repeat split).
  pose proof (Next_loop_events _ _ q _ _ _ _ _ initialRetry_range Hs Hl) as He.
  destruct e as [msg|].
  - inversion H; subst. exact He.
  - destruct (bufferedRows q1); inversion H; subst; exact He.
Qed.


(** ** The constructor *)

Lemma postQuery_result (q q' : Query) (w w' : World) (e : error) :
  postQuery q w = Some ((e, q'), w') ->
  match e with
  | Some _ => q' = set_closed q true
  | None => exists sub : queryResult, q' = submitted q sub
  end.
Proof.
  unfold postQuery, bind.
  destruct (fetchResult q _ w) as [[[res|msg] w1]|]; intros H;
    inversion H; subst; [exists res|]; reflexivity.
Qed.

Lemma NewQuery_object_result
      (host user source catalog schema query : string)
      (w w' : World) (e : error) (q : Query) :
  NewQuery_object host user source catalog schema query w
  = Some ((e, q), w') ->
  match e with
  | Some _ => closed q = true
  | None => exists (q1 : Query) (res : queryResult),
              closed q1 = false /\ q = fetchNext_store q1 res
  end.
Proof.
  unfold NewQuery_object, bind.
  destruct (postQuery _ w) as [[[e1 q1] w1]|] eqn:Hp; [|discriminate].
  apply postQuery_result in Hp.
  destruct e1 as [msg1|].
  - intros H. inversion H; subst. reflexivity.
  - destruct Hp as [sub ->]. intros H. apply fetchNext_result in H.
    destruct e as [msg|].
    + subst q. reflexivity.
    + destruct H as [res ->]. eexists _, res. split; [|reflexivity].
      reflexivity.
Qed.

Lemma submit_request_headers (q : Query) (k : string) :
  k <> userAgentHeader -> k <> userHeader -> k <> catalogHeader ->
  k <> schemaHeader -> k <> sourceHeader ->
  req_header (submit_request q) k = [].
Proof.
  intros H1 H2 H3 H4 H5.
  apply String.eqb_neq in H1, H2, H3, H4, H5.
  unfold submit_request, with_headers, add_header, Header_Add.
  cbn [req_header new_request].
  rewrite H1, H2, H3, H4, H5. reflexivity.
Qed.

(** X4: whenever [NewQuery] returns, the first request it sent is the POST
    of the query text to [<host>/v1/statement]; its header holds one value
    under each of User-Agent, X-Presto-User, X-Presto-Catalog,
    X-Presto-Schema and X-Presto-Source and nothing under any other key, an
    empty user standing for anonymous, an empty source for the user agent,
    an empty catalog or schema for default. *)
Theorem NewQuery_submits_first
        (host user source catalog schema query : string)
        (w w' : World) (r : result Query) :
  NewQuery host user source catalog schema query w = Some (r, w') ->
  exists (req : Request) (evs : list Event),
    trace w' = trace w ++ Sent req :: evs /\
    req_method req = POST /\
    req_url req = (host ++ "/v1/statement")%string /\
    req_body req = query /\
    req_header req "User-Agent" = ["go-presto/0.1.1"] /\
    req_header req "X-Presto-User"
    = [if (user =? "")%string then "anonymous" else user] /\
    req_header req "X-Presto-Catalog"
    = [if (catalog =? "")%string then "default" else catalog] /\
    req_header req "X-Presto-Schema"
    = [if (schema =? "")%string then "default" else schema] /\
    req_header req "X-Presto-Source"
    = [if (source =? "")%string then "go-presto/0.1.1" else source] /\
    forall k : string,
      k <> "User-Agent" -> k <> "X-Presto-User" -> k <> "X-Presto-Catalog" ->
      k <> "X-Presto-Schema" -> k <> "X-Presto-Source" ->
      req_header req k = [].
Proof.
  intros H. unfold NewQuery, bind in H.
  destruct (NewQuery_object host user source catalog schema query w)
    as [[[e q] w1]|] eqn:Ho; [|discriminate H].
  assert (w1 = w') by (destruct e; inversion H; reflexivity). subst w1.
  clear H. unfold NewQuery_object in Ho.
  fold (NewQuery_fresh host user source catalog schema query) in Ho.
  unfold bind in Ho.
  destruct (postQuery _ w) as [[[e1 q1] w1]|] eqn:Hp; [|discriminate Ho].
  apply postQuery_events in Hp. destruct Hp as (evs1 & Ht1 & _).
  exists (submit_request (NewQuery_fresh host user source catalog schema query)).
  assert (Ht : exists evs,
             trace w' = trace w ++
               Sent (submit_request
                       (NewQuery_fresh host user source catalog schema query))
               :: evs).
  { destruct e1 as [msg|].
    - inversion Ho; subst. exists evs1. exact Ht1.
    - apply fetchNext_events in Ho. destruct Ho as (evs2 & Ht2 & _).
      exists (evs1 ++ Sent (poll_request q1) :: evs2).
      rewrite Ht2, Ht1, <- app_assoc. reflexivity. }
  destruct Ht as (evs & Ht). exists evs.
  split; [exact Ht|]. repeat (split; [reflexivity|]).
  intros k H1 H2 H3 H4 H5. apply submit_request_headers; assumption.
Qed.

(** X5: [NewQuery] returns either an error, and then the object it built
    is closed, or a session that is closed exactly when its continuation
    handle is empty. *)
Theorem NewQuery_closed_iff_done
        (host user source catalog schema query : string)
        (w w' : World) (r : result Query) :
  NewQuery host user source catalog schema query w = Some (r, w') ->
  match r with
  | Ok q => closed q = true <-> nextUri q = ""
  | Err e =>
      exists q : Query,
        NewQuery_object host user source catalog schema query w
        = Some ((Some e, q), w') /\ closed q = true
  end.
Proof.
  intros H. unfold NewQuery, bind in H.
  destruct (NewQuery_object host user source catalog schema query w)
    as [[[e q] w1]|] eqn:Ho; [|discriminate H].
  pose proof (NewQuery_object_result _ _ _ _ _ _ _ _ _ _ Ho) as Hq.
  destruct e as [msg|]; inversion H; subst.
  - exists q. auto.
  - destruct Hq as (q1 & res & Hc & ->).
    rewrite fetchNext_store_closed, fetchNext_store_nextUri, Hc.
    destruct (NextUri res =? "")%string eqn:E.
    + apply String.eqb_eq in E. tauto.
    + apply String.eqb_neq in E. split; [discriminate|contradiction].
Qed.

(** X6: a submission answered by a successful envelope [sub] and a first
    poll answered by a successful envelope [res], the url of the submission
    and the handle of [sub] being ones that parse.  [NewQuery] returns a
    session after exactly these two requests, the poll going to the handle
    of [sub]; its id is the id of [sub], its columns are the column names of
    [res] in response order (nil when [res] has none), its buffer is the
    batch of [res], its handle the handle of [res], and it is closed exactly
    when that handle is empty. *)
Theorem NewQuery_first_batch
        (host user source catalog schema query : string)
        (w : World) (r0 r1 : Reply) (sub res : queryResult)
        (rest : list Reply) :
  url_parses (host ++ "/v1/statement") = true ->
  url_parses (NextUri sub) = true ->
  carries r0 sub -> successful sub ->
  carries r1 res -> successful res ->
  pending w = r0 :: r1 :: rest ->
  let q0 := NewQuery_fresh host user source catalog schema query in
  exists q : Query,
    NewQuery host user source catalog schema query w
    = Some (Ok q,
            {| pending := rest;
               trace := trace w ++ [Sent (submit_request q0);
                                    Sent (poll_request (submitted q0 sub))] |}) /\
    req_url (poll_request (submitted q0 sub)) = NextUri sub /\
    Query_Id q = ID sub /\
    Query_Columns q
    = match Columns res with
      | [] => None
      | _ :: _ => Some (map Name (Columns res))
      end /\
    bufferedRows q = Data res /\
    nextUri q = NextUri res /\
    closed q = (NextUri res =? "")%string /\
    same_session (submitted q0 sub) q.
Proof.
  intros Hu0 Hu1 Hr0 Hs0 Hr1 Hs1 Hp q0.
  exists (fetchNext_store (submitted q0 sub) res).
  split; [|split; [reflexivity|split; [|split; [|split; [|split; [|split]]]]]].
  - exact (NewQuery_two_replies host user source catalog schema query w
             r0 r1 sub res rest Hu0 Hu1 Hr0 Hs0 Hr1 Hs1 Hp).
  - pose proof (fetchNext_store_same_session (submitted q0 sub) res)
      as (_ & _ & _ & _ & _ & _ & Hid).
    unfold Query_Id. rewrite Hid. reflexivity.
  - unfold Query_Columns. rewrite fetchNext_store_columns. reflexivity.
  - apply fetchNext_store_bufferedRows.
  - apply fetchNext_store_nextUri.
  - rewrite fetchNext_store_closed. now destruct (_ =? _)%string.
  - apply fetchNext_store_same_session.
Qed.

(** X7: a submission, to a url that parses, answered by an envelope with a
    failure message.  [NewQuery] returns [query failed: <message>] having
    sent the POST alone (no poll follows), and the object it built is left
    closed, with no id and no handle taken from the envelope. *)
Theorem NewQuery_submission_rejected
        (host user source catalog schema query : string)
        (w : World) (rest : list Reply) (r : Reply) (sub : queryResult) :
  url_parses (host ++ "/v1/statement") = true ->
  carries r sub ->
  Message (FailureInfo (Error sub)) <> "" ->
  pending w = r :: rest ->
  let q0 := NewQuery_fresh host user source catalog schema query in
  let msg := ("query failed: " ++ Message (FailureInfo (Error sub)))%string in
  let w' := {| pending := rest;
               trace := trace w ++ [Sent (submit_request q0)] |} in
  NewQuery host user source catalog schema query w = Some (Err msg, w') /\
  NewQuery_object host user source catalog schema query w
  = Some ((Some msg, set_closed q0 true), w') /\
  closed (set_closed q0 true) = true /\
  id (set_closed q0 true) = "" /\ nextUri (set_closed q0 true) = "".
Proof.
  intros Hu Hr Hm Hp q0 msg w'.
  assert (Ho : NewQuery_object host user source catalog schema query w
               = Some ((Some msg, set_closed q0 true), w')).
  { unfold NewQuery_object.
    fold (NewQuery_fresh host user source catalog schema query). fold q0.
    unfold bind.
    rewrite (postQuery_settles q0 w [] r rest Hu (Forall_nil _)
               (carries_ready _ _ Hr) Hp).
    rewrite (digest_failure _ _ Hr Hm). reflexivity. }
  split; [eapply NewQuery_of_object; exact Ho|]. split; [exact Ho|].
  repeat split.
Qed.

(** ** Close on an open session *)

(** X8: [Close] on an open session whose handle parses, answered (after any
    number of not-ready replies) by a reply that ends the transport call.
    It sends the DELETE for the current handle, under the session's
    headers, once per reply, leaves the session closed and otherwise as it
    was, and returns an error in every case: the client's error, or
    [unexpected http status: <status>] for any response, those with status
    200 and 204 included. *)
Theorem Close_open_reports_error (q : Query) (w : World)
        (waits rest : list Reply) (r : Reply) :
  closed q = false ->
  url_parses (nextUri q) = true ->
  all_not_ready waits ->
  not_ready r = false ->
  pending w = waits ++ r :: rest ->
  Close q w
  = Some ((Some (Close_error r), set_closed q true),
          after_call (cancel_request q) w (List.length waits) rest) /\
  closed (set_closed q true) = true /\
  req_method (cancel_request q) = DELETE /\
  req_url (cancel_request q) = nextUri q /\
  req_body (cancel_request q) = "" /\
  req_header (cancel_request q) = session_headers q.
Proof.
  intros Hc Hu Hw Hr Hp.
  split; [apply Close_open_settles; assumption|]. repeat split.
Qed.

(** ** Errors of [Next] *)

Lemma Next_loop_error_closes :
  forall (fuel : nat) (retry : Duration) (q q' : Query) (w w' : World)
         (e : string),
    Next_loop fuel retry q w = Some ((Some e, q'), w') ->
    closed q' = true /\ bufferedRows q' = [].
Proof.
  induction fuel as [|fuel IH]; intros retry q q' w w' e H; [discriminate H|].
  cbn [Next_loop] in H.
  destruct (negb (closed q) && _) eqn:Hcond; [|discriminate H].
  apply andb_prop in Hcond. destruct Hcond as [_ Hlen].
  unfold bind at 1 in H.
  destruct (fetchNext q w) as [[[e1 q1] w1]|] eqn:Hf; [|discriminate H].
  apply fetchNext_result in Hf.
  destruct e1 as [msg|].
  - inversion H; subst. split; [reflexivity|].
    cbn [bufferedRows set_closed].
    destruct (bufferedRows q); [reflexivity|discriminate Hlen].
  - destruct (List.length (bufferedRows q1) =? 0)%nat.
    + unfold bind, time_Sleep in H. eapply IH; eassumption.
    + eapply IH; eassumption.
Qed.

(** X9: when [Next] returns an error, the row it returns is nil and the
    session is left closed with an empty buffer; every later call of [Next]
    then returns the end-of-data pair, and [Close] returns nil, neither of
    them touching the world: the error is reported once. *)
Theorem Next_error_once (q q' : Query) (w w' : World) (row : Row)
        (e : string) :
  Next q w = Some (((row, Some e), q'), w') ->
  row = None /\ closed q' = true /\ bufferedRows q' = [] /\
  forall w1 : World,
    Next q' w1 = Some (((None, None), q'), w1) /\
    Close q' w1 = Some ((None, q'), w1).
Proof.
  intros H. unfold Next, bind in H.
  destruct (Next_loop _ _ q w) as [[[e1 q1] w1]|] eqn:Hl; [|discriminate H].
  destruct e1 as [msg|].
  - inversion H; subst.
    destruct (Next_loop_error_closes _ _ _ _ _ _ _ Hl) as [Hc Hb].
    repeat split; auto.
    + rewrite Next_idle by (now left). unfold pop. rewrite Hb. reflexivity.
    + unfold Close. rewrite Hc. reflexivity.
  - destruct (bufferedRows q1); inversion H.
Qed.

(** X10: an open session with an empty buffer, on a handle that parses,
    whose poll is answered by a successful envelope with no rows and the
    empty handle.  [Next] returns the end-of-data pair on the session now
    closed, after one request and, although nothing more is to come, one
    sleep of the initial delay. *)
Theorem Next_sleeps_before_end_of_data (q : Query) (w : World) (r : Reply)
        (res : queryResult) (rest : list Reply) :
  closed q = false -> bufferedRows q = [] ->
  url_parses (nextUri q) = true ->
  carries r res -> successful res ->
  Data res = [] -> NextUri res = "" ->
  pending w = r :: rest ->
  Next q w
  = Some (((None, None), fetchNext_store q res),
          {| pending := rest;
             trace := trace w ++ [Sent (poll_request q); Slept initialRetry] |}) /\
  closed (fetchNext_store q res) = true.
Proof.
  intros Hc Hb Hu Hr Hs Hd Hn Hp.
  assert (Hcl : closed (fetchNext_store q res) = true)
    by (rewrite fetchNext_store_closed, Hn; reflexivity).
  split; [|exact Hcl].
  unfold Next, Next_fuel. rewrite Hp. cbn [List.length].
  unfold bind at 1. cbn [Next_loop]. rewrite Hc, Hb.
  cbn [negb andb List.length Nat.eqb]. unfold bind at 1.
  rewrite (fetchNext_settles q w [] r rest Hu (Forall_nil _)
             (carries_ready _ _ Hr) Hp).
  rewrite (digest_success _ _ Hr Hs).
  cbv beta iota. rewrite fetchNext_store_bufferedRows, Hd.
  cbn [List.length Nat.eqb]. cbv beta iota.
  unfold bind at 1, time_Sleep at 1.
  rewrite Hcl. cbn [negb andb]. unfold ret.
  rewrite fetchNext_store_bufferedRows, Hd.
  unfold after_call. cbn [call_log app trace pending].
  rewrite <- app_assoc. reflexivity.
Qed.

(** ** The caller's loop *)

Lemma TestQuery_loop_drains :
  forall (rows : list Row) (fuel : nat) (q : Query) (w : World)
         (envs : list queryResult) (acc : list Row),
    fed q w envs ->
    will_end q envs ->
    outstanding q envs = rows ->
    Forall (fun r => r <> None) rows ->
    (List.length rows < fuel)%nat ->
    exists (q' : Query) (w' : World),
      TestQuery_loop fuel q acc w = Some ((Ok (acc ++ rows), q'), w') /\
      closed q' = true /\ bufferedRows q' = [] /\ pending w' = [].
Proof.
  induction rows as [|row rows IH]; intros fuel q w envs acc Hfed Hend Ho Hnn Hf;
    (destruct fuel as [|fuel]; [simpl in Hf; lia|]);
    destruct (Next_hands_out q w envs Hfed (or_introl Hend))
      as (x & q1 & w1 & envs1 & Hn & Hfed1 & Hend1 & Hx);
    rewrite Ho in Hx; cbn [TestQuery_loop]; unfold bind at 1; rewrite Hn.
  - destruct Hx as (-> & Hc & Hp & Ho1).
    exists q1, w1. rewrite app_nil_r. split; [reflexivity|].
    split; [exact Hc|]. split; [|exact Hp].
    unfold outstanding in Ho1. now apply app_eq_nil in Ho1.
  - destruct Hx as [-> Ho1].
    pose proof (Forall_inv Hnn) as Hrow.
    pose proof (Forall_inv_tail Hnn) as Hnn'.
    destruct row as [cells|]; [|contradiction].
    destruct (IH fuel q1 w1 envs1 (acc ++ [Some cells]) Hfed1 (Hend1 Hend)
                Ho1 Hnn') as (q' & w' & Hl & Hc & Hb & Hp).
    { simpl in Hf. lia. }
    exists q', w'. rewrite Hl, <- app_assoc. auto.
Qed.

(** X11: the loop of [TestQuery] on an open session whose polls are
    answered by successful envelopes, the last of which (and no other)
    carries the empty handle, when no row is nil and the handles polled
    parse.  Given as many turns as there are rows and one more, it ends
    without an error having collected the buffered rows and then every
    batch, in order, and leaves the session closed and drained. *)
Theorem TestQuery_loop_collects (envs : list queryResult) (q : Query)
        (w : World) (fuel : nat) :
  closed q = false ->
  Forall successful envs ->
  ends_session envs = true ->
  url_parses (nextUri q) = true ->
  handles_parse envs = true ->
  pending w = map ok_reply envs ->
  let rows := bufferedRows q ++ List.concat (map Data envs) in
  Forall (fun r => r <> None) rows ->
  (List.length rows < fuel)%nat ->
  exists (q' : Query) (w' : World),
    TestQuery_loop fuel q [] w = Some ((Ok rows, q'), w') /\
    closed q' = true /\ bufferedRows q' = [] /\ pending w' = [].
Proof.
  intros Hc Hs He Hu Hh Hp rows Hnn Hf.
  apply (TestQuery_loop_drains rows fuel q w envs []); auto.
  - split; [exact Hp|]. split; [exact Hs|]. split; [congruence|].
    split; [apply ends_session_open_until_last; exact He|].
    split; [intros _; exact Hu|exact Hh].
  - right. exact He.
Qed.

(** X12: a nil row at the head of the buffer (a JSON null among the rows)
    comes out of [Next] as the pair that signals the end of data, so the
    loop of [TestQuery] stops there without an error and leaves the rows
    behind it in the buffer, on a session that may still be open. *)
Theorem nil_row_ends_TestQuery_loop (q : Query) (w : World)
        (buf acc : list Row) (fuel : nat) :
  bufferedRows q = None :: buf ->
  Next q w = Some (((None, None), set_bufferedRows q buf), w) /\
  TestQuery_loop (S fuel) q acc w
  = Some ((Ok acc, set_bufferedRows q buf), w) /\
  bufferedRows (set_bufferedRows q buf) = buf /\
  closed (set_bufferedRows q buf) = closed q.
Proof.
  intros Hb.
  assert (Hn : Next q w = Some (((None, None), set_bufferedRows q buf), w)).
  { rewrite Next_idle by (right; rewrite Hb; discriminate).
    unfold pop. rewrite Hb. reflexivity. }
  split; [exact Hn|]. split; [|split; reflexivity].
  cbn [TestQuery_loop]. unfold bind. rewrite Hn. reflexivity.
Qed.

(** ** Polls follow the handles *)

Lemma requests_of_app (a b : list Event) :
  requests_of (a ++ b) = requests_of a ++ requests_of b.
Proof. unfold requests_of. apply flat_map_app. Qed.

Lemma Next_loop_chain :
  forall (idles : list queryResult) (fuel : nat) (retry : Duration)
         (q : Query) (w : World) (res : queryResult) (rest : list Reply),
    (S (List.length idles) < fuel)%nat ->
    closed q = false -> bufferedRows q = [] ->
    url_parses (nextUri q) = true ->
    Forall idle_envelope idles ->
    successful res -> Data res <> [] ->
    pending w = map ok_reply idles ++ ok_reply res :: rest ->
    exists (q' : Query) (evs : list Event),
      Next_loop fuel retry q w
      = Some ((None, q'), {| pending := rest; trace := trace w ++ evs |}) /\
      bufferedRows q' = Data res /\
      map req_url (requests_of evs) = nextUri q :: map NextUri idles /\
      Forall (fun req => req_method req = GET) (requests_of evs).
Proof.
  induction idles as [|e idles IH];
    intros fuel retry q w res rest Hfuel Hc Hb Hu Hi Hs Hd Hp.
  - destruct fuel as [|[|fuel]]; [simpl in Hfuel; lia..|].
    cbn [map app] in Hp.
    cbn [Next_loop]. rewrite Hc, Hb.
    cbn [negb andb List.length Nat.eqb]. unfold bind at 1.
    rewrite (fetchNext_settles q w [] _ rest Hu (Forall_nil _)
               (carries_ready _ _ (carries_ok_reply res)) Hp).
    rewrite (digest_success _ _ (carries_ok_reply res) Hs).
    cbv beta iota. rewrite fetchNext_store_bufferedRows.
    destruct (Data res) as [|row rows] eqn:Hdata; [contradiction|].
    cbn [List.length Nat.eqb]. cbv beta iota.
    rewrite andb_false_r. unfold ret.
    exists (fetchNext_store q res), [Sent (poll_request q)].
    split; [reflexivity|]. split; [|split; [reflexivity|]].
    + rewrite fetchNext_store_bufferedRows. exact Hdata.
    + repeat constructor.
  - destruct fuel as [|fuel]; [simpl in Hfuel; lia|].
    inversion Hi as [|? ? (Hes & Hed & Hen & Heu) Hi']; subst.
    cbn [map app] in Hp.
    cbn [Next_loop]. rewrite Hc, Hb.
    cbn [negb andb List.length Nat.eqb]. unfold bind at 1.
    rewrite (fetchNext_settles q w [] _ _ Hu (Forall_nil _)
               (carries_ready _ _ (carries_ok_reply e)) Hp).
    rewrite (digest_success _ _ (carries_ok_reply e) Hes).
    cbv beta iota. rewrite fetchNext_store_bufferedRows, Hed.
    cbn [List.length Nat.eqb]. cbv beta iota.
    unfold bind at 1, time_Sleep at 1.
    set (q1 := fetchNext_store q e).
    assert (Hc1 : closed q1 = false).
    { unfold q1. rewrite fetchNext_store_closed.
      apply String.eqb_neq in Hen. rewrite Hen. exact Hc. }
    assert (Hb1 : bufferedRows q1 = []).
    { unfold q1. rewrite fetchNext_store_bufferedRows. exact Hed. }
    assert (Hu1 : url_parses (nextUri q1) = true).
    { unfold q1. rewrite fetchNext_store_nextUri. exact Heu. }
    match goal with
    | |- context [Next_loop fuel ?r q1 ?x] =>
        destruct (IH fuel r q1 x res rest) as (q' & evs & Hl & Hq' & Hurl & Hget)
    end; auto.
    { simpl in Hfuel. lia. }
    rewrite Hl. cbn [trace after_call call_log].
    exists q', (Sent (poll_request q) :: Slept retry :: evs).
    split; [|split; [exact Hq'|split]].
    + rewrite <- !app_assoc. reflexivity.
    + cbn [requests_of flat_map app map]. fold (requests_of evs).
      rewrite Hurl. unfold q1. rewrite fetchNext_store_nextUri. reflexivity.
    + cbn [requests_of flat_map app]. fold (requests_of evs).
      constructor; [reflexivity|exact Hget].
Qed.

(** X13: a call of [Next] on an open session with an empty buffer, answered
    by successful envelopes without rows that keep the session open and then
    by one with rows, the handles polled being ones that parse.  Every
    request is a GET; the first goes to the session's handle and each
    further one to the handle the envelope before it gave; the call returns
    the first row of the last envelope. *)
Theorem Next_follows_handles (idles : list queryResult) (q : Query)
        (w : World) (res : queryResult) (rest : list Reply) :
  closed q = false -> bufferedRows q = [] ->
  url_parses (nextUri q) = true ->
  Forall idle_envelope idles ->
  successful res -> Data res <> [] ->
  pending w = map ok_reply idles ++ ok_reply res :: rest ->
  exists (q' : Query) (evs : list Event),
    Next q w
    = Some (((hd None (Data res), None), q'),
            {| pending := rest; trace := trace w ++ evs |}) /\
    bufferedRows q' = tl (Data res) /\
    map req_url (requests_of evs) = nextUri q :: map NextUri idles /\
    Forall (fun req => req_method req = GET) (requests_of evs).
Proof.
  intros Hc Hb Hu Hi Hs Hd Hp.
  destruct (Next_loop_chain idles (Next_fuel w) initialRetry q w res rest)
    as (q1 & evs & Hl & Hq1 & Hurl & Hget); auto.
  { unfold Next_fuel. rewrite Hp, length_app, length_map. simpl. lia. }
  unfold Next, bind. rewrite Hl, Hq1.
  destruct (Data res) as [|row rows]; [contradiction|].
  exists (set_bufferedRows q1 rows), evs. repeat split; auto.
Qed.

(** ** Closing twice, and what the transport call hands back *)

(** X14: once a call of [Close] has returned, whatever it returned, the
    next call of [Close] returns nil, sends nothing and changes nothing. *)
Theorem Close_twice (q q' : Query) (w w' w1 : World) (e : error) :
  Close q w = Some ((e, q'), w') ->
  Close q' w1 = Some ((None, q'), w1).
Proof.
  intros H. apply Close_closed in H. unfold Close. rewrite H. reflexivity.
Qed.

(** X15: [makeRequest] hands back a response only under status 200; under
    any other status that ends its loop it returns an error, so no caller
    ever sees a response with another status. *)
Theorem makeRequest_hands_back_200_only (q : Query) (req : option Request)
        (w w' : World) (resp : Response) :
  makeRequest q req w = Some (Ok resp, w') ->
  StatusCode resp = 200.
Proof. apply makeRequest_ok_200. Qed.

(** ** The request a transport call repeats *)

Lemma requests_of_call (k : nat) :
  forall (req : Request) (i : nat),
    requests_of (call_log req i k) = req :: repeat (drained req) k.
Proof.
  induction k as [|k IH]; intros req i; [reflexivity|].
  cbn [call_log repeat].
  change (requests_of ([Sent req; Slept (delay i)]
                         ++ call_log (drained req) (S i) k)
          = req :: drained req :: repeat (drained req) k).
  rewrite requests_of_app, IH. reflexivity.
Qed.

(** X16: a transport call for a request that is not nil, answered by [k]
    not-ready replies and then by a reply that ends its loop, calls [Do]
    [k + 1] times and consumes exactly these replies.  What it sends has the
    caller's method and url, and under every key the caller's values
    followed by what the session adds (one value under each of its five
    keys); the first [Do] gets the caller's body, every later one the same
    request with its body read to the end. *)
Theorem makeRequest_repeats_request (q : Query) (req : Request) (w : World)
        (waits rest : list Reply) (r : Reply) :
  all_not_ready waits ->
  not_ready r = false ->
  pending w = waits ++ r :: rest ->
  exists (res : result Response) (evs : list Event),
    makeRequest q (Some req) w
    = Some (res, {| pending := rest; trace := trace w ++ evs |}) /\
    requests_of evs
    = with_headers q req
        :: repeat (drained (with_headers q req)) (List.length waits) /\
    (forall k : string,
        req_header (with_headers q req) k
        = req_header req k ++ session_headers q k) /\
    req_method (with_headers q req) = req_method req /\
    req_url (with_headers q req) = req_url req /\
    req_body (with_headers q req) = req_body req /\
    req_body (drained (with_headers q req)) = "".
Proof.
  intros Hw Hr Hp.
  rewrite (makeRequest_settles q req w waits r rest Hw Hr Hp).
  unfold after_call. do 2 eexists. split; [reflexivity|]. split.
  - apply requests_of_call.
  - split; [|repeat split].
    intros k. unfold with_headers, add_header, session_headers, Header_Add,
      Header_empty.
    cbn [req_header].
    destruct (k =? sourceHeader)%string, (k =? schemaHeader)%string,
      (k =? catalogHeader)%string, (k =? userHeader)%string,
      (k =? userAgentHeader)%string;
      cbn [app]; rewrite <- ?app_assoc; try rewrite app_nil_r; reflexivity.
Qed.

End Presto.

(** ** The theorems at concrete sessions

    The instances take [sample_parses] for the url parser. *)

Lemma Close_acknowledged_cancel_is_error_witness :
  Close sample_parses (session_at "A" [] false)
    (world_of [status_reply 204 "204 No Content"])
  = Some ((Some "unexpected http status: 204 No Content",
           session_at "A" [] true),
          {| pending := [];
             trace := [Sent (cancel_request (session_at "A" [] false))] |}).
Proof.
  exact (Close_acknowledged_cancel_is_error sample_parses eq_refl).
Defined.

Lemma fetchNext_progress_zero_total_is_nan_witness :
  exists q',
    fetchNext sample_parses (session_at "A" [] false)
      (world_of [ok_reply (envelope "A" [] "" true 0 0)])
    = Some ((None, q'),
            {| pending := [];
               trace := [Sent (poll_request (session_at "A" [] false))] |}) /\
    is_nan (Query_Progress q') = true /\
    Query_Progress q' <> ProgressUnknown.
Proof.
  exact (fetchNext_progress_zero_total_is_nan sample_parses eq_refl).
Defined.

(** The submission answers with an empty handle, the first poll (sent to the
    empty handle) answers with an empty handle again: the session comes back
    closed. *)
Lemma empty_handle_implies_closed_witness :
  exists q, reachable sample_parses q /\ nextUri q = "" /\ closed q = true.
Proof.
  eexists. split; [|split; [|apply (empty_handle_implies_closed sample_parses)]].
  - eapply (reach_NewQuery sample_parses
              "http://coordinator:8080" "" "" "" "" "select 1"
              (world_of [ok_reply (envelope "" [] "" false 0 0);
                         ok_reply (envelope "" [] "" false 0 0)])).
    vm_compute. reflexivity.
  - reflexivity.
  - eapply (reach_NewQuery sample_parses
              "http://coordinator:8080" "" "" "" "" "select 1"
              (world_of [ok_reply (envelope "" [] "" false 0 0);
                         ok_reply (envelope "" [] "" false 0 0)])).
    vm_compute. reflexivity.
  - reflexivity.
Defined.

Lemma closed_is_terminal_witness :
  let q := session_at "A" [Some [CString "n1"]] true in
  let w := world_of [DoFails "must not be reached"] in
  Close sample_parses q w = Some ((None, q), w) /\
  Next sample_parses q w = Some (pop q, w) /\
  closed (snd (pop q)) = true /\
  snd (fst (pop q)) = None.
Proof.
  exact (closed_is_terminal sample_parses
           (session_at "A" [Some [CString "n1"]] true)
           (world_of [DoFails "must not be reached"]) eq_refl).
Defined.

Lemma Close_changes_closed_only_witness :
  let q := session_at "A" [Some [CString "n1"]; Some [CString "n2"]] false in
  exists e q' w',
    Close sample_parses q
      (world_of [status_reply 500 "500 Internal Server Error"])
    = Some ((e, q'), w') /\
    q' = set_closed q true /\
    Next_n sample_parses 2 q' w'
    = Some (([(Some [CString "n1"], None); (Some [CString "n2"], None)],
             set_bufferedRows q' []), w') /\
    Next sample_parses (set_bufferedRows q' []) w'
    = Some (((None, None), set_bufferedRows q' []), w').
Proof.
  intros q.
  assert (H : Close sample_parses q
                (world_of [status_reply 500 "500 Internal Server Error"])
              = Some ((Some "unexpected http status: 500 Internal Server Error",
                       set_closed q true),
                      {| pending := []; trace := [Sent (cancel_request q)] |}))
    by (vm_compute; reflexivity).
  do 3 eexists. split; [exact H|].
  destruct (Close_changes_closed_only sample_parses _ _ _ _ _ H)
    as (Hq & _ & _ & _ & _ & _ & _ & Hn).
  split; [exact Hq|]. exact (Hn _).
Defined.

Lemma Next_end_of_data_witness :
  Next sample_parses (session_at "" [] true) (world_of [])
  = Some (((None, None), session_at "" [] true), world_of []) /\
  exists q0 w0 q1 w1 q2 w2 q3 w3,
    NewQuery sample_parses "http://coordinator:8080" "" "" "" "" "select 1"
      (world_of [ok_reply (envelope "http://coordinator:8080/v1/statement/q1/1"
                             [] "" false 0 0);
                 ok_reply (envelope "http://coordinator:8080/v1/statement/q1/1"
                             [] "" false 0 0);
                 ok_reply (envelope "" [Some [CString "n1"]; Some [CString "n2"]]
                             "" true 1 1)])
    = Some (Ok q0, w0) /\
    Next sample_parses q0 w0 = Some (((Some [CString "n1"], None), q1), w1) /\
    Next sample_parses q1 w1 = Some (((Some [CString "n2"], None), q2), w2) /\
    Next sample_parses q2 w2 = Some (((None, None), q3), w3) /\
    closed q3 = true /\ pending w3 = [] /\
    sleeps_of (trace w3) = [].
Proof.
  split.
  - exact (proj1 (Next_end_of_data sample_parses) (session_at "" [] true)
             (world_of []) eq_refl eq_refl).
  - refine (proj2 (Next_end_of_data sample_parses)
              "http://coordinator:8080/v1/statement/q1/1"
              (Some [CString "n1"]) (Some [CString "n2"]) _ eq_refl eq_refl).
    discriminate.
Defined.

Lemma query_failure_is_fatal_witness :
  let q := session_at "http://coordinator:8080/v1/statement/q1/1" [] false in
  let w := world_of [status_reply 503 "503 Service Unavailable";
                     ok_reply (envelope "http://coordinator:8080/v1/statement/q1/2"
                                 [Some [CString "n1"]]
                                 "line 1:1: no such table" true 0 4)] in
  fetchNext sample_parses q w
  = Some ((Some "query failed: line 1:1: no such table", set_closed q true),
          after_call (poll_request q) w 1 []) /\
  Next sample_parses q w
  = Some (((None, Some "query failed: line 1:1: no such table"),
           set_closed q true), after_call (poll_request q) w 1 []).
Proof.
  intros q w.
  pose proof (query_failure_is_fatal sample_parses q w
                [status_reply 503 "503 Service Unavailable"] []
                (ok_reply (envelope "http://coordinator:8080/v1/statement/q1/2"
                             [Some [CString "n1"]]
                             "line 1:1: no such table" true 0 4))
                (envelope "http://coordinator:8080/v1/statement/q1/2"
                   [Some [CString "n1"]]
                   "line 1:1: no such table" true 0 4)) as H.
  destruct H as (H1 & H2 & _).
  - repeat constructor.
  - apply carries_ok_reply.
  - discriminate.
  - reflexivity.
  - split; [exact (proj1 (H1 eq_refl))|].
    exact (proj1 (proj2 (H2 eq_refl eq_refl eq_refl))).
Defined.

Lemma failed_fetch_only_closes_witness :
  let q := session_at "http://coordinator:8080/v1/statement/q1/1" [] false in
  let w := world_of [status_reply 503 "503 Service Unavailable";
                     status_reply 200 "200 OK"] in
  let e := "error decoding json response from presto: unexpected end of JSON input" in
  fetchNext sample_parses q w
  = Some ((Some e, set_closed q true), after_call (poll_request q) w 1 []) /\
  Next sample_parses q w
  = Some (((None, Some e), set_closed q true),
          after_call (poll_request q) w 1 []) /\
  closed (set_closed q true) = true.
Proof.
  intros q w e.
  pose proof (failed_fetch_only_closes sample_parses q w
                [status_reply 503 "503 Service Unavailable"] []
                (status_reply 200 "200 OK") e) as H.
  destruct H as (_ & H2 & H3 & _).
  - repeat constructor.
  - apply fails_decode; reflexivity.
  - reflexivity.
  - split; [exact (H2 eq_refl)|].
    split; [exact (proj2 (H3 eq_refl eq_refl eq_refl))|reflexivity].
Defined.

(** Two empty polls in one call of [Next], the second after two not-ready
    replies, and then an envelope without rows that closes the session. *)
Lemma backoff_schedule_witness :
  let idle := envelope "A" [] "" false 0 0 in
  let q := session_at "A" [] false in
  let last := ok_reply (envelope "" [] "" true 1 1) in
  let w := world_of
             (flat_map poll_replies
                [([], idle);
                 ([status_reply 503 "503 Service Unavailable";
                   status_reply 503 "503 Service Unavailable"], idle)]
              ++ [] ++ [last]) in
  exists (x : Row * error) (q' : Query) (evs : list Event),
    Next sample_parses q w
    = Some ((x, q'), {| pending := []; trace := trace w ++ evs |}) /\
    sleeps_of evs
    = [50 * Millisecond;
       50 * Millisecond; 100 * Millisecond; 100 * Millisecond;
       200 * Millisecond].
Proof.
  intros idle q last w.
  refine (proj1 (proj2 (proj2 (backoff_schedule sample_parses))) _ q w [] []
            last eq_refl eq_refl eq_refl _ _ _ eq_refl).
  - repeat constructor; discriminate.
  - constructor.
  - split; [reflexivity|]. right. reflexivity.
Defined.

(** A session that holds one row, then three polls: a batch of two rows, an
    empty batch, a last batch of one row under the empty handle. *)
Lemma rows_in_arrival_order_witness :
  let n0 := Some [CString "n0"] in
  let n1 := Some [CString "n1"] in
  let n2 := Some [CString "n2"] in
  let n3 := Some [CString "n3"] in
  let q := session_at "A" [n0] false in
  let w := world_of [ok_reply (envelope "B" [n1; n2] "" true 2 3);
                     ok_reply (envelope "C" [] "" true 2 3);
                     ok_reply (envelope "" [n3] "" true 3 3)] in
  exists (q' q'' : Query) (w' w'' : World),
    Next_n sample_parses 4 q w
    = Some (([(n0, None); (n1, None); (n2, None); (n3, None)], q'), w') /\
    Next sample_parses q' w' = Some (((None, None), q''), w'') /\
    closed q'' = true /\ pending w'' = [].
Proof.
  intros n0 n1 n2 n3 q w.
  assert (Hs : Forall successful
                 [envelope "B" [n1; n2] "" true 2 3;
                  envelope "C" [] "" true 2 3;
                  envelope "" [n3] "" true 3 3])
    by (repeat constructor).
  destruct (proj1 (rows_in_arrival_order sample_parses _ q w eq_refl Hs
                     eq_refl (fun _ => eq_refl) eq_refl eq_refl))
    as (q' & w' & Hn & Hend).
  destruct (Hend eq_refl) as (q'' & w'' & Hlast).
  exists q', q'', w', w''. split; [exact Hn|exact Hlast].
Defined.

Lemma columns_set_once_witness :
  let q := set_columns (session_at "A" [] false) (Some ["total_nodes"]) in
  let w := world_of [ok_reply (columns_envelope "" [Some [CString "3"]]
                                 ["other_name"])] in
  exists (r : Row * error) (q' : Query) (w' : World),
    Next sample_parses q w = Some ((r, q'), w') /\
    fst r = Some [CString "3"] /\
    Query_Columns q' = Some ["total_nodes"].
Proof.
  intros q w.
  assert (H : exists q' w',
             Next sample_parses q w
             = Some (((Some [CString "3"], None), q'), w'))
    by (do 2 eexists; vm_compute; reflexivity).
  destruct H as (q' & w' & H).
  exists (Some [CString "3"], None), q', w'.
  split; [exact H|]. split; [reflexivity|].
  exact (columns_set_once sample_parses q q' w w' _ ["total_nodes"] eq_refl H).
Defined.

Lemma Next_keeps_session_witness :
  let q := session_at "A" [] false in
  let w := world_of [ok_reply (envelope "B" [Some [CString "n1"]] "" true 1 2)] in
  exists (r : Row * error) (q' : Query) (w' : World),
    Next sample_parses q w = Some ((r, q'), w') /\
    nextUri q' = "B" /\ same_session q q'.
Proof.
  intros q w.
  assert (H : exists r q' w',
             Next sample_parses q w = Some ((r, q'), w') /\ nextUri q' = "B")
    by (do 3 eexists; split; vm_compute; reflexivity).
  destruct H as (r & q' & w' & H & Hn).
  exists r, q', w'. split; [exact H|]. split; [exact Hn|].
  exact (Next_keeps_session sample_parses q q' w w' r H).
Defined.

Lemma Next_only_polls_witness :
  let q := session_at "A" [] false in
  let w := world_of [status_reply 503 "503 Service Unavailable";
                     ok_reply (envelope "B" [] "" false 0 0);
                     ok_reply (envelope "" [Some [CString "n1"]] "" true 1 1)] in
  exists (r : Row * error) (q' : Query) (w' : World) (evs : list Event),
    Next sample_parses q w = Some ((r, q'), w') /\
    trace w' = trace w ++ evs /\ Forall (poll_event q) evs /\
    List.length evs = 5%nat.
Proof.
  intros q w.
  assert (H : exists r q' w',
             Next sample_parses q w = Some ((r, q'), w') /\
             List.length (trace w') = 5%nat)
    by (do 3 eexists; split; vm_compute; reflexivity).
  destruct H as (r & q' & w' & H & Hlen).
  destruct (Next_only_polls sample_parses q q' w w' r H) as (evs & Ht & Hev).
  exists r, q', w', evs. split; [exact H|]. split; [exact Ht|].
  split; [exact Hev|]. rewrite Ht in Hlen. exact Hlen.
Defined.

Lemma NewQuery_submits_first_witness :
  let w := world_of [DoFails "dial tcp: connection refused"] in
  exists (w' : World) (req : Request) (evs : list Event),
    NewQuery sample_parses "http://coordinator:8080" "" "" "sys" "" "select 1" w
    = Some (Err "dial tcp: connection refused", w') /\
    trace w' = trace w ++ Sent req :: evs /\
    req_method req = POST /\
    req_url req = "http://coordinator:8080/v1/statement" /\
    req_body req = "select 1" /\
    req_header req "User-Agent" = ["go-presto/0.1.1"] /\
    req_header req "X-Presto-User" = ["anonymous"] /\
    req_header req "X-Presto-Catalog" = ["sys"] /\
    req_header req "X-Presto-Schema" = ["default"] /\
    req_header req "X-Presto-Source" = ["go-presto/0.1.1"].
Proof.
  intros w.
  assert (H : exists w',
             NewQuery sample_parses "http://coordinator:8080" "" "" "sys" ""
               "select 1" w
             = Some (Err "dial tcp: connection refused", w'))
    by (eexists; vm_compute; reflexivity).
  destruct H as (w' & H).
  destruct (NewQuery_submits_first sample_parses _ _ _ _ _ _ _ _ _ H)
    as (req & evs & Ht & Hm & Hu & Hb & H1 & H2 & H3 & H4 & H5 & _).
  exists w', req, evs. split; [exact H|]. split; [exact Ht|].
  split; [exact Hm|]. split; [exact Hu|]. split; [exact Hb|].
  split; [exact H1|]. split; [exact H2|]. split; [exact H3|].
  split; [exact H4|exact H5].
Defined.

Lemma NewQuery_closed_iff_done_witness :
  let w := world_of [ok_reply (envelope "A" [] "" false 0 0);
                     ok_reply (envelope "" [Some [CString "n1"]] "" true 1 1)] in
  exists (q : Query) (w' : World),
    NewQuery sample_parses "http://coordinator:8080" "" "" "" "" "select 1" w
    = Some (Ok q, w') /\
    (closed q = true <-> nextUri q = "") /\ nextUri q = "".
Proof.
  intros w.
  assert (H : exists q w',
             NewQuery sample_parses "http://coordinator:8080" "" "" "" ""
               "select 1" w
             = Some (Ok q, w') /\ nextUri q = "")
    by (do 2 eexists; split; vm_compute; reflexivity).
  destruct H as (q & w' & H & Hn).
  exists q, w'. split; [exact H|]. split; [|exact Hn].
  exact (NewQuery_closed_iff_done sample_parses _ _ _ _ _ _ _ _ _ H).
Defined.

Lemma NewQuery_first_batch_witness :
  let sub := envelope "http://coordinator:8080/v1/statement/q1/1" [] ""
               false 0 0 in
  let res := columns_envelope "http://coordinator:8080/v1/statement/q1/2"
               [Some [CString "3"]] ["total_nodes"] in
  let w := world_of [ok_reply sub; ok_reply res] in
  exists (q : Query) (w' : World),
    NewQuery sample_parses "http://coordinator:8080" "test" "go-presto-test"
      "sys" "" "select count(*) as total_nodes from sys.node" w
    = Some (Ok q, w') /\
    Query_Id q = "q1" /\
    Query_Columns q = Some ["total_nodes"] /\
    bufferedRows q = [Some [CString "3"]] /\
    nextUri q = "http://coordinator:8080/v1/statement/q1/2" /\
    closed q = false.
Proof.
  intros sub res w.
  destruct (NewQuery_first_batch sample_parses "http://coordinator:8080"
              "test" "go-presto-test" "sys" ""
              "select count(*) as total_nodes from sys.node"
              w (ok_reply sub) (ok_reply res) sub res []
              eq_refl eq_refl
              (carries_ok_reply sub) eq_refl (carries_ok_reply res) eq_refl
              eq_refl)
    as (q & H & _ & Hid & Hcols & Hb & Hn & Hc & _).
  exists q. eexists. split; [exact H|].
  split; [exact Hid|]. split; [exact Hcols|]. split; [exact Hb|].
  split; [exact Hn|exact Hc].
Defined.

Lemma NewQuery_submission_rejected_witness :
  let sub := envelope "" [] "line 1:8: Column 'x' cannot be resolved"
               false 0 0 in
  let w := world_of [ok_reply sub; DoFails "must not be reached"] in
  exists w' : World,
    NewQuery sample_parses "http://coordinator:8080" "" "" "" "" "select x" w
    = Some (Err "query failed: line 1:8: Column 'x' cannot be resolved", w') /\
    pending w' = [DoFails "must not be reached"] /\
    List.length (trace w') = 1%nat.
Proof.
  intros sub w.
  destruct (NewQuery_submission_rejected sample_parses
              "http://coordinator:8080" "" "" "" ""
              "select x" w [DoFails "must not be reached"] (ok_reply sub) sub)
    as (H & _).
  - reflexivity.
  - apply carries_ok_reply.
  - discriminate.
  - reflexivity.
  - eexists. split; [exact H|]. split; reflexivity.
Defined.

Lemma Close_open_reports_error_witness :
  let q := session_at "http://coordinator:8080/v1/statement/q1/1" [] false in
  let w := world_of [status_reply 200 "200 OK"] in
  Close sample_parses q w
  = Some ((Some "unexpected http status: 200 OK", set_closed q true),
          after_call (cancel_request q) w 0 []).
Proof.
  intros q w.
  exact (proj1 (Close_open_reports_error sample_parses q w [] []
                  (status_reply 200 "200 OK")
                  eq_refl eq_refl (Forall_nil _) eq_refl eq_refl)).
Defined.

Lemma Next_error_once_witness :
  let q := session_at "A" [] false in
  let w := world_of [DoFails "read tcp: connection reset by peer"] in
  exists (q' : Query) (w' : World),
    Next sample_parses q w
    = Some (((None, Some "read tcp: connection reset by peer"), q'), w') /\
    closed q' = true /\
    Next sample_parses q' w' = Some (((None, None), q'), w').
Proof.
  intros q w.
  assert (H : exists q' w',
             Next sample_parses q w
             = Some (((None, Some "read tcp: connection reset by peer"), q'),
                     w'))
    by (do 2 eexists; vm_compute; reflexivity).
  destruct H as (q' & w' & H).
  destruct (Next_error_once sample_parses q q' w w' _ _ H) as (_ & Hc & _ & Hn).
  exists q', w'. split; [exact H|]. split; [exact Hc|]. exact (proj1 (Hn w')).
Defined.

Lemma Next_sleeps_before_end_of_data_witness :
  let q := session_at "http://coordinator:8080/v1/statement/q1/1" [] false in
  let res := envelope "" [] "" true 4 4 in
  let w := world_of [ok_reply res] in
  Next sample_parses q w
  = Some (((None, None), fetchNext_store q res),
          {| pending := [];
             trace := [Sent (poll_request q); Slept (50 * Millisecond)] |}).
Proof.
  intros q res w.
  exact (proj1 (Next_sleeps_before_end_of_data sample_parses q w
                  (ok_reply res) res []
                  eq_refl eq_refl eq_refl (carries_ok_reply res) eq_refl
                  eq_refl eq_refl eq_refl)).
Defined.

Lemma TestQuery_loop_collects_witness :
  let n1 := Some [CString "n1"] in
  let n2 := Some [CString "n2"] in
  let q := session_at "http://coordinator:8080/v1/statement/q1/1" [n1] false in
  let w := world_of [ok_reply (envelope "http://coordinator:8080/v1/statement/q1/2"
                                 [] "" false 0 0);
                     ok_reply (envelope "" [n2] "" true 1 1)] in
  exists (q' : Query) (w' : World),
    TestQuery_loop sample_parses 3 q [] w = Some ((Ok [n1; n2], q'), w') /\
    closed q' = true /\ bufferedRows q' = [] /\ pending w' = [].
Proof.
  intros n1 n2 q w.
  refine (TestQuery_loop_collects sample_parses
            [envelope "http://coordinator:8080/v1/statement/q1/2" [] ""
               false 0 0;
             envelope "" [n2] "" true 1 1]
            q w 3 eq_refl _ eq_refl eq_refl eq_refl eq_refl _ _).
  - repeat constructor.
  - repeat constructor; discriminate.
  - simpl. lia.
Defined.

Lemma nil_row_ends_TestQuery_loop_witness :
  let n2 := Some [CString "n2"] in
  let q := session_at "A" [None; n2] false in
  let w := world_of [] in
  Next sample_parses q w = Some (((None, None), set_bufferedRows q [n2]), w) /\
  TestQuery_loop sample_parses 5 q [] w
  = Some ((Ok [], set_bufferedRows q [n2]), w).
Proof.
  intros n2 q w.
  destruct (nil_row_ends_TestQuery_loop sample_parses q w [n2] [] 4 eq_refl)
    as (H1 & H2 & _).
  split; [exact H1|exact H2].
Defined.

Lemma Next_follows_handles_witness :
  let u1 := "http://coordinator:8080/v1/statement/q1/1" in
  let u2 := "http://coordinator:8080/v1/statement/q1/2" in
  let u3 := "http://coordinator:8080/v1/statement/q1/3" in
  let u4 := "http://coordinator:8080/v1/statement/q1/4" in
  let q := session_at u1 [] false in
  let w := world_of [ok_reply (envelope u2 [] "" false 0 0);
                     ok_reply (envelope u3 [] "" true 0 2);
                     ok_reply (envelope u4 [Some [CString "n1"]] "" true 1 2)] in
  exists (q' : Query) (evs : list Event),
    Next sample_parses q w
    = Some (((Some [CString "n1"], None), q'),
            {| pending := []; trace := trace w ++ evs |}) /\
    bufferedRows q' = [] /\
    map req_url (requests_of evs) = [u1; u2; u3].
Proof.
  intros u1 u2 u3 u4 q w.
  destruct (Next_follows_handles sample_parses
              [envelope u2 [] "" false 0 0; envelope u3 [] "" true 0 2]
              q w (envelope u4 [Some [CString "n1"]] "" true 1 2) []
              eq_refl eq_refl eq_refl)
    as (q' & evs & H & Hb & Hurl & _).
  - repeat constructor; discriminate.
  - reflexivity.
  - discriminate.
  - reflexivity.
  - exists q', evs. split; [exact H|]. split; [exact Hb|exact Hurl].
Defined.

Lemma Close_twice_witness :
  let q := session_at "A" [] false in
  exists (e : error) (q' : Query) (w' : World),
    Close sample_parses q (world_of [status_reply 204 "204 No Content"])
    = Some ((e, q'), w') /\
    Close sample_parses q' w' = Some ((None, q'), w').
Proof.
  intros q.
  assert (H : exists e q' w',
             Close sample_parses q
               (world_of [status_reply 204 "204 No Content"])
             = Some ((e, q'), w'))
    by (do 3 eexists; vm_compute; reflexivity).
  destruct H as (e & q' & w' & H).
  exists e, q', w'. split; [exact H|].
  exact (Close_twice sample_parses q q' _ w' w' e H).
Defined.

Lemma makeRequest_hands_back_200_only_witness :
  let q := session_at "A" [] false in
  let w := world_of [status_reply 503 "503 Service Unavailable";
                     status_reply 200 "200 OK"] in
  exists (resp : Response) (w' : World),
    makeRequest q (Some (new_request GET "A" "")) w = Some (Ok resp, w') /\
    StatusCode resp = 200.
Proof.
  intros q w.
  assert (H : exists resp w',
             makeRequest q (Some (new_request GET "A" "")) w
             = Some (Ok resp, w'))
    by (do 2 eexists; vm_compute; reflexivity).
  destruct H as (resp & w' & H).
  exists resp, w'. split; [exact H|].
  exact (makeRequest_hands_back_200_only q _ w w' resp H).
Defined.

Lemma makeRequest_repeats_request_witness :
  let q := session_at "A" [] false in
  let req := new_request POST "http://coordinator:8080/v1/statement"
               "select 1" in
  let w := world_of [status_reply 503 "503 Service Unavailable";
                     status_reply 503 "503 Service Unavailable";
                     status_reply 404 "404 Not Found"] in
  exists (res : result Response) (evs : list Event),
    makeRequest q (Some req) w
    = Some (res, {| pending := []; trace := trace w ++ evs |}) /\
    map req_body (requests_of evs) = ["select 1"; ""; ""] /\
    map req_method (requests_of evs) = [POST; POST; POST].
Proof.
  intros q req w.
  destruct (makeRequest_repeats_request q req w
              [status_reply 503 "503 Service Unavailable";
               status_reply 503 "503 Service Unavailable"] []
              (status_reply 404 "404 Not Found"))
    as (res & evs & H & Hreq & _).
  - repeat constructor.
  - reflexivity.
  - reflexivity.
  - exists res, evs. split; [exact H|]. rewrite Hreq. split; reflexivity.
Defined.
